(** * Symbulate: random processes, the Poisson counting function and the
      simulation-results container

    A shallow embedding of [symbulate/random_processes.py],
    [symbulate/poisson_process.py] and the parts of [symbulate/results.py]
    that do not plot, followed by the properties established about them.

    Conventions of the embedding.
    - The times and scalars of a random process and the numbers held in
      a results object are exact rationals [Q]; the comparison [s == t] is
      [Qeq_bool].
    - In the Poisson counting function, whose loop branches on a running
      sum, the inter-arrival draws, the running total and the query time
      are binary64 floats: Rocq's primitive floats, with the rounded
      addition and the comparison of IEEE 754.
    - A Python call that can raise returns [Exc]; the exception classes are
      the constructors of [Error].
    - [RandomProcess] objects are mutable and are captured by closures, so
      they live in a [Store] and are named by references.  The closures the
      module builds are the constructors of [TimeFun].
    - What the three files import from the rest of the package (probability
      spaces, random variables, the numpy generator, [str]) is gathered in
      the class [Externals]. *)

From Stdlib Require Import String List ZArith QArith Qfield Lia Lqa Bool Arith.
From Stdlib Require Floats.
Import ListNotations.

Set Implicit Arguments.
Set Warnings "-register-all".

(** ** Python results *)

Module Py.

(** The exceptions the three modules can raise.  The source raises the
    bare [Exception] class with a message; each message gets its own
    constructor here, named after the error kind it stands for. *)
Inductive Error : Type :=
| UndefinedAtTimeError      (* "RandomProcess is not defined at time %s." *)
| InvalidProcessValueError  (* "RandomProcess at time t must be a RV." *)
| InvalidOverrideError      (* "The value of the process at any time t must be a RV." *)
| IncompatibleSpaceError    (* raised by [probSpace.check_same] *)
| TypeError
| AttributeError
| ZeroDivisionError.

Inductive Exc (A : Type) : Type :=
| OK (a : A)
| Raise (e : Error).
Arguments OK {A} a.
Arguments Raise {A} e.

Definition bind {A B : Type} (m : Exc A) (k : A -> Exc B) : Exc B :=
  match m with
  | OK a => k a
  | Raise e => Raise e
  end.

(** [mapM f l] runs [f] over [l] from left to right and stops at the first
    exception: a generator expression consumed by a [for] loop. *)
Fixpoint mapM {A B : Type} (f : A -> Exc B) (l : list A) : Exc (list B) :=
  match l with
  | [] => OK []
  | x :: rest =>
      bind (f x) (fun y => bind (mapM f rest) (fun ys => OK (y :: ys)))
  end.

(** The part of the Python object universe that simulation outcomes are
    drawn from in [Results._get_counts]: hashable atoms, tuples, lists, and
    any other unhashable object (a dict, a set, an array), which is
    identified by its printed form. *)
Inductive Obj : Type :=
| Int (z : Z)
| Str (s : string)
| Tuple (xs : list Obj)
| PyList (xs : list Obj)
| Unhashable (repr : string).

End Py.
Import Py.

Declare Scope py_scope.
Delimit Scope py_scope with py.
Notation "x <- m ;; k" := (Py.bind m (fun x => k))
  (at level 61, m at next level, right associativity) : py_scope.
Open Scope py_scope.
Open Scope Q_scope.

(** Times and scalars. *)
Definition Time : Type := Q.

(** [a > b] on numbers. *)
Definition Qgtb (a b : Q) : bool := negb (Qle_bool a b).

(** ** Values of a process function *)

(** What [time_fun(t)] may yield: [None], a scalar, a random variable, or
    some other object.  [RV] is the class of [symbulate/random_variables.py]. *)
Inductive Value (RV : Type) : Type :=
| VNone
| VScalar (x : Q)
| VRV (X : RV)
| VOther (o : Obj).
Arguments VNone {RV}.
Arguments VScalar {RV} x.
Arguments VRV {RV} X.
Arguments VOther {RV} o.

(** ** What the modules import *)

(** The collaborators that are defined outside the three files.
    - [check_same P Q] is [P.check_same(Q)]: [true] when the call returns,
      [false] when it raises.
    - [Rng] is the state of the global numpy generator, [np_seed] is
      [np.random.seed], [np_randint] is [np.random.randint].
    - [rv_draw X] is [X.draw()], which reads and advances the generator.
    - [ArbitrarySpace] is the space [ArbitrarySpace()] of a [TimeIndex].
    - [object_add] is [+] when one operand at least is not a number: the
      overloads of the class [RV], the concatenation of strings or lists,
      [TypeError] where there is no overload.
    - [py_str] is [str]. *)
Class Externals : Type := {
  ProbSpace : Type;
  RV : Type;
  Rng : Type;
  check_same : ProbSpace -> ProbSpace -> bool;
  rv_probSpace : RV -> ProbSpace;
  np_seed : Z -> Rng;
  np_randint : Z -> Rng -> Z * Rng;
  rv_draw : RV -> Rng -> Exc (Value RV) * Rng;
  ArbitrarySpace : ProbSpace;
  object_add : Value RV -> Value RV -> Exc (Value RV);
  py_str : Obj -> string
}.

(** [utils.is_scalar]: the value is a number. *)
Definition is_scalar {RV : Type} (v : Value RV) : bool :=
  match v with VScalar _ => true | _ => false end.

(** [isinstance(v, RV)]. *)
Definition is_RV {RV : Type} (v : Value RV) : bool :=
  match v with VRV _ => true | _ => false end.

(** [v is None]. *)
Definition is_None {RV : Type} (v : Value RV) : bool :=
  match v with VNone => true | _ => false end.

(** A small instance of the collaborators, used to run the definitions:
    spaces are numbered and compatible when equal, a random variable is an
    offset added to the generator state, the generator is a counter. *)
Definition toy : Externals := {|
  ProbSpace := nat;
  RV := Z;
  Rng := Z;
  check_same := Nat.eqb;
  rv_probSpace := fun _ => 0%nat;
  np_seed := fun seed => seed;
  np_randint := fun high g => ((g mod high)%Z, (g + 1)%Z);
  rv_draw := fun X g => (OK (VScalar (inject_Z (X + g))), (g + 1)%Z);
  ArbitrarySpace := 0%nat;
  object_add := fun _ _ => Raise TypeError;
  py_str := fun o => match o with Unhashable repr => repr | _ => EmptyString end
|}.

(** ** random_processes.py *)

Module RandomProcess.
Section Defs.
Context {E : Externals}.

Definition Val : Type := Value RV.

(** A reference to a [RandomProcess] object. *)
Definition Ref : Type := nat.

(** The sampling frequency [fs]: a rate, or [inf]. *)
Inductive Freq : Type :=
| Rate (r : Q)
| Inf.

(** The function objects that end up in the attribute [time_fun].
    - [PyFun g]: a function given to the constructor ([lambda t: None] by
      default, [lambda t: t] for a [TimeIndex]); it is pure.
    - [time_fun_new t value time_fun_copy]: the closure that [__setitem__]
      defines, with the three variables it captures.
    - [apply_time_fun function self]: the closure [time_fun] of [apply].
    - [op_time_fun op self other]: the closure [time_fun] of the scalar and
      [RV] branches of [op_fun].
    - [op_time_fun2 op self other]: the closure of its [RandomProcess]
      branch.
    The last three capture the object [self] (and [other]), not the
    function it holds at that moment: they read [self.time_fun] when they
    are called. *)
Inductive TimeFun : Type :=
| PyFun (g : Time -> Exc Val)
| time_fun_new (t : Time) (value : Val) (time_fun_copy : TimeFun)
| apply_time_fun (function : Val -> Exc Val) (self : Ref)
| op_time_fun (op : Val -> Val -> Exc Val) (self : Ref) (other : Val)
| op_time_fun2 (op : Val -> Val -> Exc Val) (self other : Ref).

(** The attributes of a [RandomProcess] object. *)
Record RandomProcess : Type := mkRandomProcess {
  probSpace : ProbSpace;
  fs : Freq;
  time_fun : TimeFun
}.

(** [__init__] with its default arguments [fs=1] and
    [time_fun=lambda t: None]. *)
Definition init (probSpace : ProbSpace) : RandomProcess :=
  mkRandomProcess probSpace (Rate 1) (PyFun (fun _ => OK VNone)).

(** [TimeIndex.__init__]. *)
Definition TimeIndex (fs : Freq) : RandomProcess :=
  mkRandomProcess ArbitrarySpace fs (PyFun (fun t => OK (VScalar t))).

(** The objects allocated so far, newest first: the object with reference
    [r] is the one that has exactly [r] objects below it.  A closure only
    captures objects that existed when it was made, so an object only ever
    mentions references smaller than its own. *)
Definition Store : Type := list RandomProcess.

Fixpoint lookup (st : Store) (r : Ref) : option RandomProcess :=
  match st with
  | [] => None
  | p :: older => if Nat.eqb r (length older) then Some p else lookup older r
  end.

(** Attribute assignment on the object [r]. *)
Fixpoint update (st : Store) (r : Ref) (p' : RandomProcess) : Store :=
  match st with
  | [] => []
  | p :: older =>
      if Nat.eqb r (length older) then p' :: older
      else p :: update older r p'
  end.

(** Object creation: [RandomProcess(probSpace, fs, time_fun)]. *)
Definition new (st : Store) (p : RandomProcess) : Ref * Store :=
  (length st, p :: st).

(** Calling a function object [f] at time [s]; [get r s] evaluates
    [r.time_fun(s)] for a captured object [r]. *)
Fixpoint call (get : Ref -> Time -> Exc Val) (f : TimeFun) (s : Time)
  : Exc Val :=
  match f with
  | PyFun g => g s
  | time_fun_new t value time_fun_copy =>
      if Qeq_bool s t then OK value else call get time_fun_copy s
  | apply_time_fun function self =>
      x <- get self s ;; function x
  | op_time_fun op self other =>
      x <- get self s ;; op x other
  | op_time_fun2 op self other =>
      x <- get self s ;; y <- get other s ;; op x y
  end.

(** [__getitem__]: [self[t]] is [self.time_fun(t)], looked up in the
    current store. *)
Fixpoint getitem (st : Store) (self : Ref) (t : Time) : Exc Val :=
  match st with
  | [] => Raise AttributeError
  | p :: older =>
      if Nat.eqb self (length older)
      then call (getitem older) (time_fun p) t
      else getitem older self t
  end.

(** [copy.deepcopy] of a function object gives the function object
    back. *)
Definition deepcopy (f : TimeFun) : TimeFun := f.

(** [__setitem__]: [self[t] = value].  It returns [None]; its effect is the
    new store. *)
Definition setitem (st : Store) (self : Ref) (t : Time) (value : Val)
  : Exc Store :=
  if is_RV value || is_scalar value then
    match lookup st self with
    | Some p =>
        let time_fun_copy := deepcopy (time_fun p) in
        OK (update st self
              (mkRandomProcess (probSpace p) (fs p)
                 (time_fun_new t value time_fun_copy)))
    | None => Raise AttributeError
    end
  else Raise InvalidOverrideError.

(** [apply]. *)
Definition apply (st : Store) (self : Ref) (function : Val -> Exc Val)
  : Exc (Ref * Store) :=
  match lookup st self with
  | Some p =>
      OK (new st (mkRandomProcess (probSpace p) (fs p)
                    (apply_time_fun function self)))
  | None => Raise AttributeError
  end.

(** The right operand of an operator: a value or a process. *)
Inductive Operand : Type :=
| Const (v : Val)
| Proc (r : Ref).

(** [other.probSpace]. *)
Definition probSpace_of (st : Store) (other : Operand) : Exc ProbSpace :=
  match other with
  | Const (VRV X) => OK (rv_probSpace X)
  | Const _ => Raise AttributeError
  | Proc r =>
      match lookup st r with
      | Some q => OK (probSpace q)
      | None => Raise AttributeError
      end
  end.

(** [check_same_probSpace]. *)
Definition check_same_probSpace (st : Store) (self : Ref) (other : Operand)
  : Exc unit :=
  match other with
  | Const (VScalar _) => OK tt
  | _ =>
      match lookup st self with
      | Some p =>
          Q' <- probSpace_of st other ;;
          if check_same (probSpace p) Q' then OK tt
          else Raise IncompatibleSpaceError
      | None => Raise AttributeError
      end
  end.

(** [_operation_factory(op)] gives [op_fun]; this is [op_fun(self, other)].
    An operand that is neither a scalar, a [RV] nor a process has no
    [probSpace], so [check_same_probSpace] has raised before the
    [if]/[elif] chain could fall through. *)
Definition op_fun (op : Val -> Val -> Exc Val) (st : Store) (self : Ref)
                  (other : Operand) : Exc (Ref * Store) :=
  _ <- check_same_probSpace st self other ;;
  match lookup st self with
  | Some p =>
      match other with
      | Const v =>
          OK (new st (mkRandomProcess (probSpace p) (fs p)
                        (op_time_fun op self v)))
      | Proc r =>
          OK (new st (mkRandomProcess (probSpace p) (fs p)
                        (op_time_fun2 op self r)))
      end
  | None => Raise AttributeError
  end.

(** [lambda x, y: x + y] on process values. *)
Definition py_add (x y : Val) : Exc Val :=
  match x, y with
  | VScalar a, VScalar b => OK (VScalar (a + b))
  | _, _ => object_add x y
  end.

(** [__add__]. *)
Definition add (st : Store) (self : Ref) (other : Operand)
  : Exc (Ref * Store) :=
  op_fun py_add st self other.

(** The closure [f] that [draw] returns, with the two variables it
    captures. *)
Record Path : Type := mkPath {
  seed : Z;
  path_self : Ref
}.

(** [draw]: the seed is drawn from the global generator. *)
Definition draw (self : Ref) (g : Rng) : Path * Rng :=
  let (seed, g') := np_randint 1000000000 g in
  (mkPath seed self, g').

(** Calling the closure [f] of [draw] at [t] when the generator is in the
    state [g0]: [np.random.seed(seed)] replaces that state.  [self[t]] is
    evaluated anew at every test, as in the source. *)
Definition f (st : Store) (c : Path) (t : Time) (g0 : Rng)
  : Exc Val * Rng :=
  let self := path_self c in
  let g := np_seed (seed c) in
  match getitem st self t with
  | Raise e => (Raise e, g)
  | OK x1 =>
      if is_None x1 then (Raise UndefinedAtTimeError, g)
      else
        match getitem st self t with
        | Raise e => (Raise e, g)
        | OK x2 =>
            if is_scalar x2 then (getitem st self t, g)
            else
              match getitem st self t with
              | Raise e => (Raise e, g)
              | OK x3 =>
                  if is_RV x3 then
                    match getitem st self t with
                    | Raise e => (Raise e, g)
                    | OK (VRV X) => rv_draw X g
                    | OK _ => (Raise AttributeError, g)
                    end
                  else (Raise InvalidProcessValueError, g)
              end
        end
  end.

(** [[self.draw() for _ in range(n)]]. *)
Fixpoint draws (self : Ref) (n : nat) (g : Rng) : list Path * Rng :=
  match n with
  | O => ([], g)
  | S k =>
      let (c, g1) := draw self g in
      let (cs, g2) := draws self k g1 in
      (c :: cs, g2)
  end.

End Defs.
End RandomProcess.

(** ** poisson_process.py *)

Module PoissonProcess.
Import PrimFloat.

(** The inter-arrival draws [x[n]] and the running total are Python
    floats, that is IEEE 754 binary64 numbers; they are the primitive
    floats of Rocq, whose [+] and [<] are the operations of the hardware.
    [total_time] starts as the integer 0, and [0 + x[0]] is the float
    addition [0.0 + x[0]].  The query time [t] is a float; an integer time
    compares with a float as the greatest float that is not above it. *)

(** The loop [while True] of [fun], entered with the current [n] and
    [total_time].  [x] is the unbounded sequence of inter-arrival draws.
    The loop has no bound of its own; [fuel] is the number of iterations
    that are run, and [None] says that they did not reach [break]. *)
Fixpoint loop (fuel : nat) (x : nat -> float) (t : float) (n : nat)
              (total_time : float) : option nat :=
  match fuel with
  | O => None
  | S fuel' =>
      let total_time := (total_time + x n)%float in
      if (t <? total_time)%float then Some n
      else loop fuel' x t (S n) total_time
  end.

(** [fun(x, t)], run for at most [fuel] iterations. *)
Definition fun_ (fuel : nat) (x : nat -> float) (t : float) : option nat :=
  loop fuel x t 0%nat 0%float.

(** The running total: the value of [total_time] after [n] additions, as
    the loop computes it, each addition rounded. *)
Fixpoint cumsum (x : nat -> float) (n : nat) : float :=
  match n with
  | O => 0%float
  | S k => (cumsum x k + x k)%float
  end.

(** The rational number that a finite float stands for (0 for the
    infinities and NaN). *)
Definition exact (v : float) : Q :=
  match FloatOps.Prim2SF v with
  | SpecFloat.S754_finite s m e =>
      let q := inject_Z (Zpos m) * Qpower 2 e in
      if s then - q else q
  | _ => 0
  end.

(** The sum of the first [n] inter-arrival times, without rounding. *)
Fixpoint exact_cumsum (x : nat -> float) (n : nat) : Q :=
  match n with
  | O => 0
  | S k => exact_cumsum x k + exact (x k)
  end.

(** Inter-arrival times all equal to 1. *)
Definition ones (k : nat) : float := 1%float.

(** The inter-arrival times 1, 2^-60, 2^-60, ...: all positive, and their
    sum grows without bound; the running total stays at 1. *)
Definition stalled (k : nat) : float :=
  match k with
  | O => 1%float
  | S _ => 0x1p-60%float
  end.

(** The inter-arrival times 1, 2^-53, 1, 1, ...: the second one is lost
    when it is added to 1. *)
Definition absorbed (k : nat) : float :=
  match k with
  | 1%nat => 0x1p-53%float
  | _ => 1%float
  end.

End PoissonProcess.

(** ** results.py *)

Module Results.

(** The classes of the module. *)
Inductive Class : Type :=
| Results
| RVResults
| RandomProcessResults.

(** A results object: a list with a class and, for
    [RandomProcessResults], the attribute [timeIndex]. *)
Record t (A : Type) : Type := mk {
  class : Class;
  elems : list A;
  timeIndex : option RandomProcess.Freq
}.

(** The call [cls(results)] or [cls(results, timeIndex)].
    [Results.__init__] takes one argument and [RVResults] inherits it;
    [RandomProcessResults.__init__] takes two.  The arguments are bound
    before the body consumes [results], so a call of the wrong arity
    raises [TypeError] whatever [results] would do. *)
Definition init (A : Type) (cls : Class) (results : Exc (list A))
                (timeIndex : option RandomProcess.Freq) : Exc (t A) :=
  match cls, timeIndex with
  | RandomProcessResults, Some ti =>
      l <- results ;; OK (mk cls l (Some ti))
  | RandomProcessResults, None => Raise TypeError
  | _, None => l <- results ;; OK (mk cls l None)
  | _, Some _ => Raise TypeError
  end.

(** [len(self)]. *)
Definition len (A : Type) (self : t A) : nat := length (elems self).

(** [apply]: [type(self)(fun(x) for x in self)]. *)
Definition apply (A B : Type) (self : t A) (fun_ : A -> Exc B) : Exc (t B) :=
  init (class self) (mapM fun_ (elems self)) None.

(** [filter]: [type(self)(x for x in self if fun(x))]. *)
Definition filter (A : Type) (self : t A) (fun_ : A -> bool) : Exc (t A) :=
  init (class self) (OK (List.filter fun_ (elems self))) None.

(** The loop of [get] over [enumerate(self)], entered at position [j]. *)
Fixpoint get_from (A : Type) (j : Z) (l : list A) (i : Z) : option A :=
  match l with
  | [] => None
  | x :: rest => if Z.eqb j i then Some x else get_from (j + 1) rest i
  end.

(** [get]: [None] stands for falling off the end of the loop, that is for
    the Python value [None]. *)
Definition get (A : Type) (self : t A) (i : Z) : option A :=
  get_from 0 (elems self) i.

(** [is_hashable]: [x.__hash__ is not None]. *)
Definition is_hashable (x : Obj) : bool :=
  match x with
  | Int _ | Str _ | Tuple _ => true
  | PyList _ | Unhashable _ => false
  end.

(** Whether [hash(x)] succeeds: a tuple has a [__hash__], and hashing it
    hashes its members. *)
Fixpoint hash_ok (x : Obj) : bool :=
  match x with
  | Int _ | Str _ => true
  | Tuple xs => forallb hash_ok xs
  | PyList _ | Unhashable _ => false
  end.

(** [a == b]. *)
Fixpoint obj_eqb (a b : Obj) : bool :=
  let fix all2 (xs ys : list Obj) : bool :=
    match xs, ys with
    | [], [] => true
    | x :: xs', y :: ys' => obj_eqb x y && all2 xs' ys'
    | _, _ => false
    end in
  match a, b with
  | Int x, Int y => Z.eqb x y
  | Str x, Str y => String.eqb x y
  | Tuple xs, Tuple ys => all2 xs ys
  | PyList xs, PyList ys => all2 xs ys
  | Unhashable x, Unhashable y => String.eqb x y
  | _, _ => false
  end.

(** A [dict] from outcomes to numbers, in insertion order. *)
Definition Dict (V : Type) : Type := list (Obj * V).

(** [y in counts]. *)
Definition contains (V : Type) (y : Obj) (counts : Dict V) : bool :=
  existsb (fun kv => obj_eqb (fst kv) y) counts.

(** [counts[y] += 1]. *)
Fixpoint incr (y : Obj) (counts : Dict nat) : Dict nat :=
  match counts with
  | [] => []
  | (k, v) :: rest =>
      if obj_eqb k y then (k, S v) :: rest else (k, v) :: incr y rest
  end.

(** The number of outcomes counted in [counts]. *)
Definition counted (counts : Dict nat) : nat :=
  fold_right (fun kv acc => (snd kv + acc)%nat) 0%nat counts.

Section Defs.
Context {E : Externals}.

(** The key [y] under which [_get_counts] counts the outcome [x]. *)
Definition key_of (x : Obj) : Obj :=
  if is_hashable x then x
  else
    match x with
    | PyList xs =>
        if forallb is_hashable xs then Tuple xs else Str (py_str x)
    | _ => Str (py_str x)
    end.

(** The loop of [_get_counts]; [y in counts] hashes [y]. *)
Fixpoint get_counts_from (counts : Dict nat) (l : list Obj)
  : Exc (Dict nat) :=
  match l with
  | [] => OK counts
  | x :: rest =>
      let y := key_of x in
      if hash_ok y then
        if contains y counts then get_counts_from (incr y counts) rest
        else get_counts_from (counts ++ [(y, 1%nat)]) rest
      else Raise TypeError
  end.

Definition _get_counts (self : t Obj) : Exc (Dict nat) :=
  get_counts_from [] (elems self).

(** Modelled from the spec: the class [Table] of [symbulate/table.py],
    which [tabulate] builds and divides, is not part of the three files.
    The spec says of the table: "If outcomes is supplied, the table must
    include zero-count entries for outcomes absent from the ensemble."
    So [Table hash_map outcomes] holds the counts and, for every listed
    outcome that was not counted, an entry 0.  The spec does not say
    whether a counted outcome that is not listed stays in the table; here
    it does. *)
Definition Table (hash_map : Dict nat) (outcomes : option (list Obj))
  : Dict Q :=
  let counted := map (fun kv => (fst kv, inject_Z (Z.of_nat (snd kv))))
                     hash_map in
  match outcomes with
  | None => counted
  | Some outs =>
      fold_left
        (fun table k => if contains k table then table
                        else table ++ [(k, 0)])
        outs counted
  end.

(** Modelled from the spec: [table / n] of [symbulate/table.py].  The spec
    says: "normalize divides counts by n".  Dividing by 0 raises. *)
Definition Table_truediv (table : Dict Q) (n : nat) : Exc (Dict Q) :=
  match n with
  | O => Raise ZeroDivisionError
  | S _ =>
      OK (map (fun kv => (fst kv, snd kv / inject_Z (Z.of_nat n))) table)
  end.

(** [tabulate]. *)
Definition tabulate (self : t Obj) (outcomes : option (list Obj))
                    (normalize : bool) : Exc (Dict Q) :=
  counts <- _get_counts self ;;
  let table := Table counts outcomes in
  if normalize then Table_truediv table (len self) else OK table.

(** The sum of the values of a table. *)
Definition total (table : Dict Q) : Q :=
  fold_right (fun kv acc => snd kv + acc) 0 table.

End Defs.
End Results.

(** [RandomProcess.sim]: the list of closures is built first, then
    [self.fs] is read and passed as [timeIndex]. *)
Definition sim {E : Externals} (st : RandomProcess.Store)
    (self : RandomProcess.Ref) (n : nat) (g : Rng)
  : Exc (Results.t RandomProcess.Path) * Rng :=
  let (paths, g') := RandomProcess.draws self n g in
  match RandomProcess.lookup st self with
  | Some p =>
      (Results.init Results.RandomProcessResults (OK paths)
         (Some (RandomProcess.fs p)), g')
  | None => (Raise AttributeError, g')
  end.

(** ** Sample objects *)

Module Sample.
#[local] Existing Instance toy.
Import RandomProcess.

(** One process made by [RandomProcess(0)]; its reference is 0. *)
Definition blank : Store := [init 0%nat].

(** One process whose function yields the random variable 7 at every
    time. *)
Definition noisy : Store :=
  [mkRandomProcess 0%nat (Rate 1) (PyFun (fun _ => OK (VRV 7%Z)))].

(** Two processes over the space 0: a time index, with reference 0, and
    the constant 10, with reference 1. *)
Definition pair : Store :=
  [mkRandomProcess 0%nat Inf (PyFun (fun _ => OK (VScalar 10)));
   TimeIndex Inf].

(** Two processes over different spaces. *)
Definition strangers : Store := [init 1%nat; init 0%nat].

End Sample.

(** ** random_processes.py: the other operators *)

Module Operators.

(** [-] and [*] when one operand at least is not a number: the overloads
    of the class [RV], or [TypeError]. *)
Class Arith {E : Externals} : Type := {
  object_sub : Value RV -> Value RV -> Exc (Value RV);
  object_mul : Value RV -> Value RV -> Exc (Value RV)
}.

Section Defs.
Context {E : Externals} {Ar : Arith}.
Import RandomProcess.

(** [lambda x, y: x - y]. *)
Definition py_sub (x y : Val) : Exc Val :=
  match x, y with
  | VScalar a, VScalar b => OK (VScalar (a - b))
  | _, _ => object_sub x y
  end.

(** [lambda x, y: x * y]. *)
Definition py_mul (x y : Val) : Exc Val :=
  match x, y with
  | VScalar a, VScalar b => OK (VScalar (a * b))
  | _, _ => object_mul x y
  end.

(** [__radd__]. *)
Definition radd (st : Store) (self : Ref) (other : Operand)
  : Exc (Ref * Store) :=
  add st self other.

(** [__sub__]. *)
Definition sub (st : Store) (self : Ref) (other : Operand)
  : Exc (Ref * Store) :=
  op_fun py_sub st self other.

(** [__mul__]. *)
Definition mul (st : Store) (self : Ref) (other : Operand)
  : Exc (Ref * Store) :=
  op_fun py_mul st self other.

(** [__rmul__]. *)
Definition rmul (st : Store) (self : Ref) (other : Operand)
  : Exc (Ref * Store) :=
  mul st self other.

(** [-1 * P] for a process [P]: the number does not know how to multiply a
    process, so Python calls [P.__rmul__(-1)]. *)
Definition minus_one_times (st : Store) (P : Ref) : Exc (Ref * Store) :=
  rmul st P (Const (VScalar (-1))).

(** [__rsub__]: [-1 * self.__sub__(other)]. *)
Definition rsub (st : Store) (self : Ref) (other : Operand)
  : Exc (Ref * Store) :=
  r <- sub st self other ;;
  minus_one_times (snd r) (fst r).

(** [__neg__]: [-1 * self]. *)
Definition neg (st : Store) (self : Ref) : Exc (Ref * Store) :=
  minus_one_times st self.

End Defs.

(** The operators of the sample collaborators: no overload. *)
Definition toy_arith : @Arith toy := {|
  object_sub := fun _ _ => Raise TypeError;
  object_mul := fun _ _ => Raise TypeError
|}.

End Operators.

(** ** results.py: counting, filtering, comparing *)

Module Counting.
Import Results.

(** [counts.get(y)]: the value under the first key equal to [y]. *)
Fixpoint dict_get (V : Type) (y : Obj) (counts : Dict V) : option V :=
  match counts with
  | [] => None
  | (k, v) :: rest => if obj_eqb k y then Some v else dict_get y rest
  end.

(** The number of elements of [l] that are equal to [y]. *)
Definition occurrences (y : Obj) (l : list Obj) : nat :=
  length (List.filter (fun x => obj_eqb x y) l).

(** The count of a value after [n] more occurrences, from the count it had
    [before], if it had one. *)
Definition seen (before : option nat) (n : nat) : option nat :=
  match before, n with
  | Some m, _ => Some (m + n)%nat
  | None, O => None
  | None, S _ => Some n
  end.

(** The loop of [count_var]; [val in counts] hashes [val]. *)
Fixpoint count_var_from (counts : Dict nat) (x : list Obj)
  : Exc (Dict nat) :=
  match x with
  | [] => OK counts
  | val :: rest =>
      if hash_ok val then
        if contains val counts then count_var_from (incr val counts) rest
        else count_var_from (counts ++ [(val, 1%nat)]) rest
      else Raise TypeError
  end.

(** [count_var]. *)
Definition count_var (x : list Obj) : Exc (Dict nat) :=
  count_var_from [] x.

(** [count]: [len(self.filter(fun))]. *)
Definition count (A : Type) (self : t A) (fun_ : A -> bool) : Exc nat :=
  r <- filter self fun_ ;; OK (len r).

(** [count()] with the default [fun=lambda x: True]. *)
Definition count_all (A : Type) (self : t A) : Exc nat :=
  count self (fun _ => true).

(** The six filters, on numbers: [lambda x: x == value], [x != value],
    [x < value], [x <= value], [x > value], [x >= value]. *)
Definition filter_eq (self : t Q) (value : Q) : Exc (t Q) :=
  filter self (fun x => Qeq_bool x value).

Definition filter_neq (self : t Q) (value : Q) : Exc (t Q) :=
  filter self (fun x => negb (Qeq_bool x value)).

Definition filter_lt (self : t Q) (value : Q) : Exc (t Q) :=
  filter self (fun x => Qgtb value x).

Definition filter_leq (self : t Q) (value : Q) : Exc (t Q) :=
  filter self (fun x => Qle_bool x value).

Definition filter_gt (self : t Q) (value : Q) : Exc (t Q) :=
  filter self (fun x => Qgtb x value).

Definition filter_geq (self : t Q) (value : Q) : Exc (t Q) :=
  filter self (fun x => Qle_bool value x).

(** The six counts: [len(self.filter_eq(value))] and so on. *)
Definition count_eq (self : t Q) (value : Q) : Exc nat :=
  r <- filter_eq self value ;; OK (len r).

Definition count_neq (self : t Q) (value : Q) : Exc nat :=
  r <- filter_neq self value ;; OK (len r).

Definition count_lt (self : t Q) (value : Q) : Exc nat :=
  r <- filter_lt self value ;; OK (len r).

Definition count_leq (self : t Q) (value : Q) : Exc nat :=
  r <- filter_leq self value ;; OK (len r).

Definition count_gt (self : t Q) (value : Q) : Exc nat :=
  r <- filter_gt self value ;; OK (len r).

Definition count_geq (self : t Q) (value : Q) : Exc nat :=
  r <- filter_geq self value ;; OK (len r).

(** The vectorized comparisons [__eq__], [__ne__], [__lt__], [__le__],
    [__gt__], [__ge__] with a number: [self.apply(lambda x: x == other)]
    and so on. *)
Definition eq_ (self : t Q) (other : Q) : Exc (t bool) :=
  apply self (fun x => OK (Qeq_bool x other)).

Definition ne_ (self : t Q) (other : Q) : Exc (t bool) :=
  apply self (fun x => OK (negb (Qeq_bool x other))).

Definition lt_ (self : t Q) (other : Q) : Exc (t bool) :=
  apply self (fun x => OK (Qgtb other x)).

Definition le_ (self : t Q) (other : Q) : Exc (t bool) :=
  apply self (fun x => OK (Qle_bool x other)).

Definition gt_ (self : t Q) (other : Q) : Exc (t bool) :=
  apply self (fun x => OK (Qgtb x other)).

Definition ge_ (self : t Q) (other : Q) : Exc (t bool) :=
  apply self (fun x => OK (Qle_bool other x)).

(** The number of [True] in a list of booleans. *)
Definition trues (l : list bool) : nat :=
  length (List.filter (fun b => b) l).

End Counting.

(** The state of the generator after one call of [draw]: the call draws one
    number with [randint]. *)
Definition after_draw {E : Externals} (g : Rng) : Rng :=
  snd (np_randint 1000000000 g).

(** ** results.py: indexing simulated paths *)

Module Paths.
Section Defs.
Context {E : Externals}.

(** [x[t]] where [x] is a closure returned by [draw]: a function object has
    no [__getitem__], so subscripting it raises [TypeError]. *)
Definition subscript (x : RandomProcess.Path) (t : Time)
  : Exc RandomProcess.Val :=
  Raise TypeError.

(** [RandomProcessResults.__getitem__]: [RVResults(x[t] for x in self)]. *)
Definition getitem (self : Results.t RandomProcess.Path) (t : Time)
  : Exc (Results.t RandomProcess.Val) :=
  Results.init Results.RVResults
    (mapM (fun x => subscript x t) (Results.elems self)) None.

End Defs.
End Paths.

(** ** results.py: the table of [_repr_html_] *)

Module Display.
Section Defs.
Context {E : Externals}.

(** The line feed. *)
Definition nl : string := String (Ascii.ascii_of_nat 10) EmptyString.

(** [truncate], the inner function of [_repr_html_]. *)
Definition truncate (result : string) : string :=
  if Nat.ltb 100 (String.length result)
  then (substring 0 100 result ++ "...")%string
  else result.

(** [row_template % (i, s)]. *)
Definition row_template (i s : string) : string :=
  (nl ++ "        <tr>" ++ nl ++ "          <td>" ++ i ++ "</td><td>" ++ s
   ++ "</td>" ++ nl ++ "        </tr>" ++ nl ++ "        ")%string.

(** The row of the element [x] at position [i]. *)
Definition row (i : nat) (x : Obj) : string :=
  row_template (py_str (Int (Z.of_nat i))) (truncate (py_str x)).

(** The row that stands for the rows left out. *)
Definition dots : string := "<tr><td>...</td><td>...</td></tr>".

(** [str(self.get(i_last))]. *)
Definition str_get (self : Results.t Obj) (i_last : Z) : string :=
  match Results.get self i_last with
  | Some x => py_str x
  | None => "None"
  end.

(** The rows of the elements [l], the first of them at position [i]. *)
Fixpoint rows (i : nat) (l : list Obj) : list string :=
  match l with
  | [] => []
  | x :: rest => row i x :: rows (S i) rest
  end.

(** The pieces that the loop of [_repr_html_] appends to [table_body],
    entered at position [i] with the elements [l] still to come. *)
Fixpoint pieces_from (self : Results.t Obj) (i : nat) (l : list Obj)
  : list string :=
  match l with
  | [] => []
  | x :: rest =>
      row i x ::
      (if Nat.leb 8 i then
         let i_last := (Z.of_nat (Results.len self) - 1)%Z in
         [dots;
          row_template (py_str (Int i_last)) (truncate (str_get self i_last))]
       else pieces_from self (S i) rest)
  end.

Definition pieces (self : Results.t Obj) : list string :=
  pieces_from self 0 (Results.elems self).

(** [table_body] at the end of the loop. *)
Definition table_body (self : Results.t Obj) : string :=
  String.concat "" (pieces self).

End Defs.
End Display.

(** * Properties *)

Unset Implicit Arguments.

(** ** Floats: order and addition *)

(** What the counting loop needs of binary64 floats: the comparisons order
    the floats that are not NaN, and the rounded sum of two floats that are
    not negative is not below the first.  The facts are proved on the
    bit-level specification of the operations, [SpecFloat], which the
    library relates to the primitive operations. *)

Section FloatFacts.
Import SpecFloat FloatOps FloatAxioms.

(** Case analysis on the comparisons of exponents and mantissas. *)

Ltac compare_cases :=
  repeat match goal with
  | |- context [Z.compare ?a ?b] =>
      destruct (Z.compare_spec a b)
  | |- context [Pos.compare_cont Eq ?a ?b] =>
      change (Pos.compare_cont Eq a b) with (Pos.compare a b);
      destruct (Pos.compare_spec a b)
  end.

(** A statement on the order of floats, by cases on the floats. *)
Ltac order_cases :=
  unfold SFleb, SFltb, SFeqb, SFcompare;
  repeat match goal with
  | x : spec_float |- _ => destruct x
  | s : bool |- _ => destruct s
  end; cbn; try (intros; discriminate); try (intros; reflexivity);
  compare_cases; cbn; intros; subst; try discriminate; try reflexivity;
  try lia.

Lemma SFleb_trans (a b c : spec_float) :
  SFleb a b = true -> SFleb b c = true -> SFleb a c = true.
Proof. order_cases. Qed.

Lemma SFltb_leb_trans (a b c : spec_float) :
  SFltb a b = true -> SFleb b c = true -> SFltb a c = true.
Proof. order_cases. Qed.

Lemma SFleb_ltb_trans (a b c : spec_float) :
  SFleb a b = true -> SFltb b c = true -> SFltb a c = true.
Proof. order_cases. Qed.

Lemma SFeqb_ltb_trans (a b c : spec_float) :
  SFeqb a b = true -> SFltb b c = true -> SFltb a c = true.
Proof. order_cases. Qed.

Lemma SFltb_not_leb (a b : spec_float) :
  SFltb a b = true -> SFleb b a = false.
Proof. order_cases. Qed.

Lemma SFleb_total (a b : spec_float) :
  SFleb (S754_zero false) a = true -> SFleb (S754_zero false) b = true ->
  SFltb a b = false -> SFleb b a = true.
Proof. order_cases. Qed.

Lemma SFleb_refl (a : spec_float) :
  SFleb (S754_zero false) a = true -> SFleb a a = true.
Proof. order_cases. Qed.

(** A number of [d] binary digits lies between [2^(d-1)] and [2^d]. *)
Lemma digits2_pos_bounds (p : positive) :
  (2 ^ (Zpos (digits2_pos p) - 1) <= Zpos p < 2 ^ Zpos (digits2_pos p))%Z.
Proof.
  induction p as [p IH|p IH|]; cbn [digits2_pos].
  - rewrite Pos2Z.inj_succ.
    replace (Z.succ (Zpos (digits2_pos p)) - 1)%Z
      with (Z.succ (Zpos (digits2_pos p) - 1)) by lia.
    rewrite !Z.pow_succ_r by lia. lia.
  - rewrite Pos2Z.inj_succ.
    replace (Z.succ (Zpos (digits2_pos p)) - 1)%Z
      with (Z.succ (Zpos (digits2_pos p) - 1)) by lia.
    rewrite !Z.pow_succ_r by lia. lia.
  - cbn. lia.
Qed.

(** Shifting a mantissa to the left multiplies it by a power of 2. *)
Lemma iter_xO_value (m d : positive) :
  Zpos (Pos.iter xO m d) = (Zpos m * 2 ^ Zpos d)%Z.
Proof.
  induction d as [|d IH] using Pos.peano_ind.
  - cbn. lia.
  - rewrite Pos.iter_succ, Pos2Z.inj_xO, IH, Pos2Z.inj_succ.
    rewrite Z.pow_succ_r by lia. lia.
Qed.

Lemma shl_align_value (m : positive) (e e' : Z) :
  (e' <= e)%Z ->
  Zpos (fst (shl_align m e e')) = (Zpos m * 2 ^ (e - e'))%Z.
Proof.
  intro H. unfold shl_align. destruct (e' - e)%Z as [|d|d] eqn:Hd.
  - replace (e - e')%Z with 0%Z by lia. cbn [fst]. lia.
  - lia.
  - replace (e - e')%Z with (Zpos d) by lia. cbn [fst].
    apply iter_xO_value.
Qed.

(** Shifting to the right divides the mantissa, whatever becomes of the
    round and sticky bits. *)
Lemma shr_1_m (r : shr_record) :
  (0 <= shr_m r)%Z -> shr_m (shr_1 r) = (shr_m r / 2)%Z.
Proof.
  destruct r as [m r s]. cbn [shr_m]. intro H.
  rewrite <- Z.div2_div.
  destruct m as [|[q|q|]|q]; try reflexivity. lia.
Qed.

Lemma iter_shr_1_m (p : positive) :
  forall r, (0 <= shr_m r)%Z ->
            shr_m (iter_pos shr_1 p r) = (shr_m r / 2 ^ Zpos p)%Z.
Proof.
  induction p as [p IH|p IH|]; intros r H; cbn [iter_pos].
  - assert (H1 : (0 <= shr_m (shr_1 r))%Z)
      by (rewrite shr_1_m by exact H; apply Z.div_pos; lia).
    assert (H2 : (0 <= shr_m (iter_pos shr_1 p (shr_1 r)))%Z)
      by (rewrite IH by exact H1; apply Z.div_pos; lia).
    rewrite IH by exact H2. rewrite IH by exact H1.
    rewrite shr_1_m by exact H.
    rewrite !Z.div_div by lia.
    f_equal. rewrite Pos2Z.inj_xI.
    replace (2 * Zpos p + 1)%Z with (1 + Zpos p + Zpos p)%Z by lia.
    rewrite !Z.pow_add_r by lia. change (2 ^ 1)%Z with 2%Z. lia.
  - assert (H1 : (0 <= shr_m (iter_pos shr_1 p r))%Z)
      by (rewrite IH by exact H; apply Z.div_pos; lia).
    rewrite IH by exact H1. rewrite IH by exact H.
    rewrite Z.div_div by lia.
    f_equal. rewrite Pos2Z.inj_xO.
    rewrite <- Z.pow_add_r by lia. f_equal. lia.
  - rewrite shr_1_m by exact H. reflexivity.
Qed.

Lemma shr_nonneg_spec (r : shr_record) (e n : Z) :
  (0 <= shr_m r)%Z -> (0 <= n)%Z ->
  shr_m (fst (shr r e n)) = (shr_m r / 2 ^ n)%Z /\
  snd (shr r e n) = (e + n)%Z.
Proof.
  intros Hm Hn. unfold shr. destruct n as [|p|p]; cbn [fst snd].
  - rewrite Z.pow_0_r, Z.div_1_r. lia.
  - split; [apply iter_shr_1_m; exact Hm | reflexivity].
  - lia.
Qed.

Lemma shr_nonpos_spec (r : shr_record) (e n : Z) :
  (n <= 0)%Z -> shr r e n = (r, e).
Proof. destruct n; try reflexivity. lia. Qed.

(** Rounding to nearest keeps the truncated mantissa or adds 1 to it. *)
Lemma round_nearest_even_bounds (mx : Z) (lx : location) :
  (mx <= round_nearest_even mx lx <= mx + 1)%Z.
Proof.
  destruct lx as [|[| |]]; cbn; try lia. destruct (Z.even mx); lia.
Qed.

(** A mantissa with [d] digits, cut down to [prec] digits, is not 0. *)
Lemma cut_to_prec_pos (m : positive) (n : Z) :
  n = (Zpos (digits2_pos m) - prec)%Z -> (0 <= n)%Z ->
  (1 <= Zpos m / 2 ^ n)%Z.
Proof.
  intros -> Hn. pose proof (digits2_pos_bounds m) as [Hlo _].
  apply Z.div_le_lower_bound; [apply Z.pow_pos_nonneg; lia|].
  rewrite Z.mul_1_r.
  apply Z.le_trans with (2 := Hlo).
  apply Z.pow_le_mono_r; unfold prec in *; lia.
Qed.

(** Rounding [M * 2^ez] does not go below a float [ma * 2^ea], in its
    canonical form, that is not above it.  The rounded exponent is at least
    [ea]; when it is [ea], the truncated mantissa is at least [ma]. *)
Lemma binary_round_ge (M ma : positive) (ez ea : Z) :
  fexp prec emax (Zpos (digits2_pos ma) + ea) = ea ->
  (ez <= ea)%Z ->
  (Zpos ma * 2 ^ (ea - ez) <= Zpos M)%Z ->
  SFleb (S754_finite false ma ea) (binary_round prec emax false M ez) = true.
Proof.
  intros Hcan Hez HM.
  pose proof (digits2_pos_bounds ma) as [Hma _].
  pose proof (digits2_pos_bounds M) as [HMlo HMhi].
  assert (HD : (Zpos (digits2_pos ma) + (ea - ez) <= Zpos (digits2_pos M))%Z).
  { assert (H : (2 ^ (Zpos (digits2_pos ma) - 1 + (ea - ez))
                 < 2 ^ Zpos (digits2_pos M))%Z).
    { rewrite Z.pow_add_r by lia.
      apply Z.le_lt_trans with (2 := HMhi).
      apply Z.le_trans with (2 := HM).
      apply Z.mul_le_mono_nonneg_r; [apply Z.pow_nonneg; lia | exact Hma]. }
    apply Z.pow_lt_mono_r_iff in H; lia. }
  unfold binary_round.
  set (e1 := fexp prec emax (Zpos (digits2_pos M) + ez)).
  assert (He1 : (ea <= e1)%Z).
  { unfold e1, fexp, emin, prec, emax in *. lia. }
  assert (Hal : shl_align M ez e1 = (M, ez)).
  { unfold shl_align. destruct (e1 - ez)%Z eqn:Hd; try reflexivity. lia. }
  rewrite Hal. unfold binary_round_aux, shr_fexp.
  cbn [Zdigits2 shr_record_of_loc]. fold e1.
  destruct (shr_nonneg_spec (Build_shr_record (Zpos M) false false)
              ez (e1 - ez)) as [Hq He]; [cbn; lia | lia |].
  destruct (shr (Build_shr_record (Zpos M) false false) ez (e1 - ez))
    as [r1 e1'].
  cbn [fst snd shr_m] in Hq, He.
  assert (He1' : e1' = e1) by lia. clear He. subst e1'.
  pose proof (round_nearest_even_bounds (shr_m r1) (loc_of_shr_record r1))
    as Hrne.
  remember (round_nearest_even (shr_m r1) (loc_of_shr_record r1)) as r
    eqn:Hr.
  clear Hr.
  assert (Hq1 : (1 <= shr_m r1)%Z /\ (e1 = ea -> Zpos ma <= shr_m r1)%Z).
  { rewrite Hq. split.
    - destruct (Z.eq_dec e1 ea) as [Heq|Hne].
      + rewrite Heq. apply Z.div_le_lower_bound;
          [apply Z.pow_pos_nonneg; lia|]. nia.
      + apply cut_to_prec_pos; [|lia].
        unfold e1, fexp, emin, prec, emax in *. lia.
    - intros ->. apply Z.div_le_lower_bound;
        [apply Z.pow_pos_nonneg; lia|]. lia. }
  destruct Hq1 as [Hq1 Hqa].
  destruct r as [|m1|m1]; try lia.
  cbn [Zdigits2].
  set (n2 := (fexp prec emax (Zpos (digits2_pos m1) + e1) - e1)%Z).
  assert (Hfin : forall (m2 : positive) (e2 : Z),
             (ea < e2 \/ (e2 = ea /\ Zpos ma <= Zpos m2))%Z ->
             SFleb (S754_finite false ma ea)
               (if (e2 <=? emax - prec)%Z then S754_finite false m2 e2
                else S754_infinity false) = true).
  { intros m2 e2 H. destruct (e2 <=? emax - prec)%Z; [|reflexivity].
    unfold SFleb, SFcompare.
    change (Pos.compare_cont Eq ma m2) with (Pos.compare ma m2).
    destruct (Z.compare_spec ea e2); try reflexivity; try lia.
    destruct (Pos.compare_spec ma m2); try reflexivity. lia. }
  destruct (Z_le_gt_dec n2 0) as [Hn2|Hn2].
  - rewrite (shr_nonpos_spec _ _ _ Hn2). cbn [shr_m].
    apply Hfin. destruct (Z.eq_dec e1 ea) as [Heq|Hne]; [right|left; lia].
    split; [exact Heq|]. specialize (Hqa Heq). lia.
  - destruct (shr_nonneg_spec (Build_shr_record (Zpos m1) false false)
                e1 n2) as [Hq2 He2]; [cbn; lia | lia |].
    destruct (shr (Build_shr_record (Zpos m1) false false) e1 n2)
      as [r2 e2].
    cbn [fst snd shr_m] in Hq2, He2.
    assert (H2 : (1 <= shr_m r2)%Z).
    { rewrite Hq2. apply cut_to_prec_pos; [|lia].
      unfold n2, fexp, emin, prec, emax in *. lia. }
    destruct (shr_m r2) as [|m2|m2]; try lia.
    apply Hfin. left. lia.
Qed.

(** Adding a float that is not negative to one that is not negative
    does not give less. *)
Lemma SF64add_nonneg_ge (a x : spec_float) :
  valid_binary a = true ->
  SFleb (S754_zero false) a = true ->
  SFleb (S754_zero false) x = true ->
  SFleb a (SF64add a x) = true.
Proof.
  intros Hva Ha Hx.
  destruct a as [sa|[|]| |[|] ma ea]; try discriminate Ha;
  destruct x as [sx|[|]| |[|] mx ex]; try discriminate Hx;
    try reflexivity.
  - destruct sa, sx; reflexivity.
  - unfold SF64add, SFadd, SFleb, SFcompare.
    rewrite Z.compare_refl.
    change (Pos.compare_cont Eq ma ma) with (Pos.compare ma ma).
    rewrite Pos.compare_refl. reflexivity.
  - unfold SF64add, SFadd. cbn [cond_Zopp].
    cbn [valid_binary] in Hva. unfold bounded, canonical_mantissa in Hva.
    apply andb_prop in Hva. destruct Hva as [Hcan _].
    apply Z.eqb_eq in Hcan.
    assert (Hmin : (Z.min ea ex <= ea)%Z) by lia.
    pose proof (shl_align_value ma ea (Z.min ea ex) Hmin) as HA.
    cbn [Z.add binary_normalize].
    apply binary_round_ge; [exact Hcan | exact Hmin |].
    rewrite Pos2Z.inj_add, <- HA. lia.
Qed.


(** The same on the primitive floats. *)

Import PrimFloat.

Lemma float_le_trans (a b c : float) :
  (a <=? b)%float = true -> (b <=? c)%float = true ->
  (a <=? c)%float = true.
Proof. rewrite !leb_spec. apply SFleb_trans. Qed.

Lemma float_le_lt_trans (a b c : float) :
  (a <=? b)%float = true -> (b <? c)%float = true ->
  (a <? c)%float = true.
Proof. rewrite !leb_spec, !ltb_spec. apply SFleb_ltb_trans. Qed.

Lemma float_eq_lt_trans (a b c : float) :
  (a =? b)%float = true -> (b <? c)%float = true ->
  (a <? c)%float = true.
Proof. rewrite !eqb_spec, !ltb_spec. apply SFeqb_ltb_trans. Qed.

Lemma float_lt_le_trans (a b c : float) :
  (a <? b)%float = true -> (b <=? c)%float = true ->
  (a <? c)%float = true.
Proof. rewrite !leb_spec, !ltb_spec. apply SFltb_leb_trans. Qed.

Lemma float_lt_not_le (a b : float) :
  (a <? b)%float = true -> (b <=? a)%float = false.
Proof. rewrite leb_spec, ltb_spec. apply SFltb_not_leb. Qed.

Lemma float_zero_spec : Prim2SF 0%float = S754_zero false.
Proof. reflexivity. Qed.

(** Two floats that are not negative (so neither is a NaN) compare one
    way or the other. *)
Lemma float_not_lt_le (a b : float) :
  (0 <=? a)%float = true -> (0 <=? b)%float = true ->
  (a <? b)%float = false -> (b <=? a)%float = true.
Proof. rewrite !leb_spec, ltb_spec, float_zero_spec. apply SFleb_total. Qed.

Lemma float_le_refl (a : float) :
  (0 <=? a)%float = true -> (a <=? a)%float = true.
Proof. rewrite !leb_spec, float_zero_spec. apply SFleb_refl. Qed.

Lemma float_lt_le (a b : float) :
  (a <? b)%float = true -> (a <=? b)%float = true.
Proof.
  rewrite leb_spec, ltb_spec. unfold SFltb, SFleb.
  destruct (SFcompare (Prim2SF a) (Prim2SF b)) as [[ | | ]|];
    try discriminate; reflexivity.
Qed.

(** The rounded sum of two floats that are not negative is not below the
    first. *)
Lemma float_add_nonneg_ge (a x : float) :
  (0 <=? a)%float = true -> (0 <=? x)%float = true ->
  (a <=? a + x)%float = true.
Proof.
  rewrite !leb_spec, add_spec, float_zero_spec.
  apply SF64add_nonneg_ge. apply Prim2SF_valid.
Qed.

(** Adding a positive float to 0 gives that float. *)
Lemma float_add_zero_pos (x : float) :
  (0 <? x)%float = true -> (0 + x)%float = x.
Proof.
  rewrite ltb_spec, float_zero_spec. intro H. apply Prim2SF_inj.
  rewrite add_spec, float_zero_spec.
  destruct (Prim2SF x) as [s|[|]| |[|] m e]; try discriminate H;
    reflexivity.
Qed.

End FloatFacts.

(** ** The Poisson counting function *)

Section PoissonFacts.
Import PoissonProcess PrimFloat.

Variable x : nat -> float.

(** The loop stops at the first [m >= n] whose running total is above
    [t]. *)
Lemma loop_break (t : float) (fuel n m : nat) :
  (n <= m)%nat -> (m - n < fuel)%nat ->
  (forall k, (n <= k < m)%nat -> (t <? cumsum x (S k))%float = false) ->
  (t <? cumsum x (S m))%float = true ->
  loop fuel x t n (cumsum x n) = Some m.
Proof.
  revert n. induction fuel as [|fuel IH]; intros n Hnm Hfuel Hle Hgt.
  - lia.
  - cbn [loop]. change (cumsum x n + x n)%float with (cumsum x (S n)).
    destruct (t <? cumsum x (S n))%float eqn:Hb.
    + destruct (Nat.eq_dec n m) as [->|Hne]; [reflexivity|].
      rewrite (Hle n) in Hb by lia. discriminate Hb.
    + destruct (Nat.eq_dec n m) as [->|Hne]; [congruence|].
      apply (IH (S n)); try lia; try assumption.
      intros k Hk. apply Hle. lia.
Qed.

(** What a result of the loop says about the running totals. *)
Lemma loop_some (t : float) (fuel n m : nat) :
  loop fuel x t n (cumsum x n) = Some m ->
  (n <= m)%nat /\ (m - n < fuel)%nat /\
  (t <? cumsum x (S m))%float = true /\
  (forall k, (n <= k < m)%nat -> (t <? cumsum x (S k))%float = false).
Proof.
  revert n. induction fuel as [|fuel IH]; intros n H; cbn [loop] in H.
  - discriminate.
  - change (cumsum x n + x n)%float with (cumsum x (S n)) in H.
    destruct (t <? cumsum x (S n))%float eqn:Hb.
    + injection H as <-.
      repeat split; [lia | lia | exact Hb | intros k Hk; lia].
    + destruct (IH (S n) H) as (Hle & Hfuel & Hgt & Hbelow).
      repeat split; [lia | lia | exact Hgt |].
      intros k Hk. destruct (Nat.eq_dec k n) as [->|Hne].
      * exact Hb.
      * apply Hbelow. lia.
Qed.

(** Below any index, either no running total is above [t] or there is a
    first one that is. *)
Lemma scan_arrivals (t : float) (j : nat) :
  (forall k, (k < j)%nat -> (t <? cumsum x (S k))%float = false) \/
  exists m, (m < j)%nat /\ (t <? cumsum x (S m))%float = true /\
            (forall k, (k < m)%nat -> (t <? cumsum x (S k))%float = false).
Proof.
  induction j as [|j [Hall|(m & Hm & Hgt & Hbelow)]].
  - left. intros k Hk. lia.
  - destruct (t <? cumsum x (S j))%float eqn:Hj.
    + right. exists j. repeat split; [lia | exact Hj | exact Hall].
    + left. intros k Hk.
      destruct (Nat.eq_dec k j) as [->|Hne]; [exact Hj|].
      apply Hall. lia.
  - right. exists m. repeat split; [lia | exact Hgt | exact Hbelow].
Qed.

(** When the running total after [N + 1] draws is above [t], the loop
    returns within [N + 1] iterations, at the first index whose running
    total is above [t]. *)
Lemma fun_returns (t : float) (N : nat) :
  (t <? cumsum x (S N))%float = true ->
  exists n, (n <= N)%nat /\ fun_ (S N) x t = Some n /\
            (t <? cumsum x (S n))%float = true /\
            (forall k, (k < n)%nat -> (t <? cumsum x (S k))%float = false).
Proof.
  intro H.
  destruct (scan_arrivals t (S N)) as [Hall|(m & Hm & Hgt & Hbelow)].
  - rewrite Hall in H by lia. discriminate H.
  - exists m. repeat split; [lia | | exact Hgt | exact Hbelow].
    unfold fun_. apply (loop_break t (S N) 0 m); try lia; try assumption.
    intros k Hk. apply Hbelow. lia.
Qed.

Lemma fun_some (t : float) (fuel n : nat) :
  fun_ fuel x t = Some n ->
  (n < fuel)%nat /\ (t <? cumsum x (S n))%float = true /\
  (forall k, (k < n)%nat -> (t <? cumsum x (S k))%float = false).
Proof.
  unfold fun_. intro H.
  destruct (loop_some t fuel 0 n H) as (_ & Hfuel & Hgt & Hbelow).
  repeat split; [lia | exact Hgt |]. intros k Hk. apply Hbelow. lia.
Qed.

(** The running total is not negative, and does not decrease, when no
    draw is negative: rounding a sum never takes it below a term. *)
Lemma cumsum_nonneg (n : nat) :
  (forall k, (0 <=? x k)%float = true) -> (0 <=? cumsum x n)%float = true.
Proof.
  intro Hx. induction n as [|n IH].
  - reflexivity.
  - cbn [cumsum]. apply float_le_trans with (1 := IH).
    apply float_add_nonneg_ge; [exact IH | apply Hx].
Qed.

Lemma cumsum_mono (m n : nat) :
  (forall k, (0 <=? x k)%float = true) -> (m <= n)%nat ->
  (cumsum x m <=? cumsum x n)%float = true.
Proof.
  intros Hx Hmn. induction Hmn as [|n Hmn IH].
  - apply float_le_refl. apply cumsum_nonneg. exact Hx.
  - cbn [cumsum]. apply float_le_trans with (1 := IH).
    apply float_add_nonneg_ge; [apply cumsum_nonneg; exact Hx | apply Hx].
Qed.

(** C7, as amended: [fuel] iterations of the loop of [fun] reach [break]
    exactly when one of the first [fuel] running totals is above [t], the
    running total being the float that the loop accumulates; so when the
    running total after [N + 1] draws is above [t], [N + 1] iterations are
    enough.  Nothing is assumed on the draws, and the loop has no bound of
    its own. *)
Theorem fun_terminates_iff_arrival_after (t : float) :
  (forall fuel,
      (exists n, fun_ fuel x t = Some n) <->
      (exists N, (N < fuel)%nat /\ (t <? cumsum x (S N))%float = true)) /\
  (forall N,
      (t <? cumsum x (S N))%float = true ->
      exists n, (n <= N)%nat /\ fun_ (S N) x t = Some n).
Proof.
  assert (Hret : forall N,
             (t <? cumsum x (S N))%float = true ->
             exists n, (n <= N)%nat /\ fun_ (S N) x t = Some n).
  { intros N H. destruct (fun_returns t N H) as (n & Hn & Hf & _).
    exists n. split; [exact Hn | exact Hf]. }
  split; [|exact Hret].
  intro fuel. split.
  - intros (n & H). destruct (fun_some t fuel n H) as (Hn & Hgt & _).
    exists n. split; [exact Hn | exact Hgt].
  - intros (N & HN & H).
    destruct (fun_returns t N H) as (n & Hn & _ & Hgt & Hbelow).
    exists n. unfold fun_.
    apply (loop_break t fuel 0 n); try lia; try assumption.
    intros k Hk. apply Hbelow. lia.
Qed.

(** C6, as amended: for strictly positive inter-arrival times, a time
    [t >= 0] and a running total above [t], [fun] returns the largest [n]
    such that the running total of the first [n] times, as the loop
    accumulates it in floats, is at most [t]; it returns 0 at [t = 0]; and
    whatever it returns at a later time is at least as large. *)
Theorem fun_counts_arrivals (t : float) (N : nat) :
  (forall k, (0 <? x k)%float = true) ->
  (0 <=? t)%float = true ->
  (t <? cumsum x (S N))%float = true ->
  exists n,
    fun_ (S N) x t = Some n /\
    (cumsum x n <=? t)%float = true /\
    (forall m, (cumsum x m <=? t)%float = true -> (m <= n)%nat) /\
    ((t =? 0)%float = true -> n = 0%nat) /\
    (forall t' fuel' n',
        (t <=? t')%float = true -> fun_ fuel' x t' = Some n' ->
        (n <= n')%nat).
Proof.
  intros Hpos Ht HN.
  assert (Hnn : forall k, (0 <=? x k)%float = true)
    by (intro k; apply float_lt_le, Hpos).
  destruct (fun_returns t N HN) as (n & _ & Hn & Hgt & Hbelow).
  assert (Hfirst : forall m, (t <? cumsum x (S m))%float = true ->
                             (n <= m)%nat).
  { intros m Hm. destruct (le_lt_dec n m) as [Hle|Hlt]; [exact Hle|].
    rewrite (Hbelow m Hlt) in Hm. discriminate Hm. }
  exists n. repeat split.
  - exact Hn.
  - destruct n as [|n]; [exact Ht|].
    apply float_not_lt_le; [exact Ht | apply cumsum_nonneg; exact Hnn |].
    apply Hbelow. lia.
  - intros m Hm.
    destruct (le_lt_dec m n) as [Hle|Hlt]; [exact Hle|]. exfalso.
    assert (Hc : (cumsum x (S n) <=? t)%float = true).
    { apply float_le_trans with (2 := Hm). apply cumsum_mono; [exact Hnn | lia]. }
    rewrite (float_lt_not_le _ _ Hgt) in Hc. discriminate Hc.
  - intro H0. assert (H1 : (t <? cumsum x 1)%float = true).
    { cbn [cumsum]. rewrite (float_add_zero_pos _ (Hpos 0%nat)).
      apply float_eq_lt_trans with (1 := H0). apply Hpos. }
    specialize (Hfirst 0%nat H1). lia.
  - intros t' fuel' n' Htt' Hn'. apply Hfirst.
    destruct (fun_some t' fuel' n' Hn') as (_ & Hgt' & _).
    apply float_le_lt_trans with (1 := Htt'). exact Hgt'.
Qed.

End PoissonFacts.

(** ** The results container *)

Section ResultsFacts.
Import Results.
Context {E : Externals}.

Lemma mapM_total (A B : Type) (g : A -> B) (l : list A) :
  mapM (fun a => OK (g a)) l = OK (map g l).
Proof.
  induction l as [|a l IH]; simpl.
  - reflexivity.
  - rewrite IH. reflexivity.
Qed.

(** On a [Results] or a [RVResults], [apply] maps the function over the
    elements, in order, and gives an object of the same class. *)
Lemma apply_maps (A B : Type) (self : t A) (g : A -> B) :
  class self <> RandomProcessResults ->
  apply self (fun a => OK (g a))
  = OK (mk (class self) (map g (elems self)) None).
Proof.
  intro Hc. unfold apply, init. rewrite mapM_total.
  destruct (class self); try reflexivity. contradiction.
Qed.

(** C8: on a [RandomProcessResults], [apply] raises [TypeError] for every
    function and every content: [type(self)] is called with one argument
    and [RandomProcessResults.__init__] needs [timeIndex] too.  No mapped
    ensemble is produced. *)
Theorem apply_RandomProcessResults_raises
    (A B : Type) (items : list A) (timeIndex : option RandomProcess.Freq)
    (fun_ : A -> Exc B) :
  apply (mk RandomProcessResults items timeIndex) fun_ = Raise TypeError.
Proof. reflexivity. Qed.

(** What [sim] returns is such an object. *)
Lemma sim_class (st : RandomProcess.Store) (self : RandomProcess.Ref)
    (n : nat) (g : Rng) (r : t RandomProcess.Path) (g' : Rng) :
  sim st self n g = (OK r, g') -> class r = RandomProcessResults.
Proof.
  unfold sim. destruct (RandomProcess.draws self n g) as [paths g1].
  destruct (RandomProcess.lookup st self) as [p|]; simpl; intro H.
  - injection H as <- _. reflexivity.
  - discriminate.
Qed.

(** The loop of [get], entered at position [j], finds the element at
    distance [i - j] when there is one. *)
Lemma get_from_spec (A : Type) (l : list A) (j i : Z) :
  get_from j l i =
  if ((j <=? i) && (i <? j + Z.of_nat (length l)))%Z
  then nth_error l (Z.to_nat (i - j)) else None.
Proof.
  revert j. induction l as [|a l IH]; intro j.
  - simpl. destruct ((j <=? i) && (i <? j + 0))%Z eqn:Hb; [|reflexivity].
    apply andb_true_iff in Hb. destruct Hb as [H1 H2].
    apply Z.leb_le in H1. apply Z.ltb_lt in H2. lia.
  - cbn [get_from]. destruct (Z.eqb_spec j i) as [->|Hne].
    + replace (i - i)%Z with 0%Z by lia.
      rewrite Z.leb_refl. cbn [andb Z.to_nat nth_error].
      destruct (Z.ltb_spec i (i + Z.of_nat (length (a :: l)))) as [_|H].
      * reflexivity.
      * cbn [length] in H. lia.
    + rewrite IH. cbn [length]. rewrite Nat2Z.inj_succ.
      destruct (Z.leb_spec (j + 1) i) as [H1|H1];
        destruct (Z.leb_spec j i) as [H2|H2]; try lia;
        destruct (Z.ltb_spec i (j + 1 + Z.of_nat (length l))) as [H3|H3];
        destruct (Z.ltb_spec i (j + Z.succ (Z.of_nat (length l)))) as [H4|H4];
        try lia; cbn [andb]; try reflexivity.
      replace (Z.to_nat (i - j)) with (S (Z.to_nat (i - (j + 1)))) by lia.
      reflexivity.
Qed.

(** C10: [get(i)] returns [None] when [i] is negative or at least the
    length, and the [i]-th element otherwise. *)
Theorem get_in_and_out_of_range (A : Type) (self : t A) (i : Z) :
  ((i < 0 \/ Z.of_nat (len self) <= i)%Z -> get self i = None) /\
  ((0 <= i < Z.of_nat (len self))%Z ->
   exists x, nth_error (elems self) (Z.to_nat i) = Some x /\
             get self i = Some x).
Proof.
  unfold get, len. rewrite get_from_spec. split.
  - intros [H|H].
    + destruct (Z.leb_spec 0 i); [lia | reflexivity].
    + destruct (Z.ltb_spec i (0 + Z.of_nat (length (elems self))));
        [lia | rewrite andb_false_r; reflexivity].
  - intros [H1 H2].
    destruct (Z.leb_spec 0 i); [|lia].
    destruct (Z.ltb_spec i (0 + Z.of_nat (length (elems self)))); [|lia].
    cbn [andb]. rewrite Z.sub_0_r.
    destruct (nth_error (elems self) (Z.to_nat i)) as [x|] eqn:Hn.
    + exists x. split; reflexivity.
    + apply nth_error_None in Hn. lia.
Qed.

Lemma counted_app (a b : Dict nat) :
  counted (a ++ b) = (counted a + counted b)%nat.
Proof.
  unfold counted. induction a as [|kv a IH]; simpl.
  - reflexivity.
  - rewrite IH. lia.
Qed.

(** [counts[y] += 1] counts one more outcome when [y] is a key. *)
Lemma incr_counted (y : Obj) (counts : Dict nat) :
  contains y counts = true -> counted (incr y counts) = S (counted counts).
Proof.
  unfold contains. induction counts as [|[k v] counts IH]; simpl.
  - discriminate.
  - destruct (obj_eqb k y) eqn:Hk; simpl.
    + intros _. reflexivity.
    + intro H. unfold counted in *. simpl. rewrite (IH H). lia.
Qed.

Lemma total_app (a b : Dict Q) : total (a ++ b) == total a + total b.
Proof.
  unfold total. induction a as [|kv a IH]; simpl.
  - ring.
  - rewrite IH. ring.
Qed.

Lemma total_counts (counts : Dict nat) :
  total (map (fun kv => (fst kv, inject_Z (Z.of_nat (snd kv)))) counts)
  == inject_Z (Z.of_nat (counted counts)).
Proof.
  unfold total, counted. induction counts as [|kv counts IH]; simpl.
  - reflexivity.
  - rewrite IH, Nat2Z.inj_add, inject_Z_plus. reflexivity.
Qed.

(** Entries 0 do not change the sum of a table. *)
Lemma total_zero_entries (outs : list Obj) :
  forall table : Dict Q,
    total (fold_left
             (fun table k => if contains k table then table
                             else table ++ [(k, 0)])
             outs table)
    == total table.
Proof.
  induction outs as [|k outs IH]; intro table; simpl.
  - reflexivity.
  - rewrite IH. destruct (contains k table).
    + reflexivity.
    + rewrite total_app. unfold total at 2. simpl. ring.
Qed.

Lemma Table_total (counts : Dict nat) (outcomes : option (list Obj)) :
  total (Table counts outcomes) == inject_Z (Z.of_nat (counted counts)).
Proof.
  unfold Table. destruct outcomes as [outs|].
  - rewrite total_zero_entries. apply total_counts.
  - apply total_counts.
Qed.

Lemma total_div (table : Dict Q) (d : Q) :
  total (map (fun kv => (fst kv, snd kv / d)) table) == total table / d.
Proof.
  unfold total. induction table as [|kv table IH]; simpl.
  - unfold Qdiv. ring.
  - rewrite IH. unfold Qdiv. ring.
Qed.

(** The table that [tabulate] returns is described entry by entry in the
    section on the frequency table, after the lemmas on counting. *)

End ResultsFacts.

(** ** Random processes *)

Section ProcessFacts.
Import RandomProcess.
Context {E : Externals}.

Lemma lookup_lt (st : Store) (r : Ref) (p : RandomProcess) :
  lookup st r = Some p -> (r < length st)%nat.
Proof.
  induction st as [|q older IH]; simpl.
  - discriminate.
  - destruct (Nat.eqb_spec r (length older)) as [->|Hne].
    + intros _. lia.
    + intro H. specialize (IH H). lia.
Qed.

Lemma length_update (st : Store) (r : Ref) (p' : RandomProcess) :
  length (update st r p') = length st.
Proof.
  induction st as [|q older IH]; simpl.
  - reflexivity.
  - destruct (Nat.eqb r (length older)); simpl; [reflexivity|].
    rewrite IH. reflexivity.
Qed.

Lemma lookup_update_same (st : Store) (r : Ref) (p p' : RandomProcess) :
  lookup st r = Some p -> lookup (update st r p') r = Some p'.
Proof.
  induction st as [|q older IH]; simpl.
  - discriminate.
  - destruct (Nat.eqb r (length older)) eqn:Hr; simpl.
    + intros _. rewrite Hr. reflexivity.
    + intro H. rewrite length_update, Hr. exact (IH H).
Qed.

Lemma lookup_update_other (st : Store) (r r' : Ref) (p' : RandomProcess) :
  r' <> r -> lookup (update st r p') r' = lookup st r'.
Proof.
  intro Hne. induction st as [|q older IH]; simpl.
  - reflexivity.
  - destruct (Nat.eqb_spec r (length older)) as [Hr|Hr]; simpl.
    + destruct (Nat.eqb_spec r' (length older)) as [Hr'|Hr'];
        [congruence | reflexivity].
    + rewrite length_update, IH. reflexivity.
Qed.

(** An object that is already there is read in the same way after an
    allocation. *)
Lemma getitem_new_old (st : Store) (q : RandomProcess) (r : Ref) (s : Time) :
  (r < length st)%nat -> getitem (q :: st) r s = getitem st r s.
Proof.
  intro H. simpl. destruct (Nat.eqb_spec r (length st)); [lia | reflexivity].
Qed.

Lemma getitem_new (st : Store) (q : RandomProcess) (s : Time) :
  getitem (q :: st) (length st) s = call (getitem st) (time_fun q) s.
Proof. simpl. rewrite Nat.eqb_refl. reflexivity. Qed.

(** Reading the object that [__setitem__] has just rebound. *)
Lemma getitem_update_override
    (st : Store) (r : Ref) (p : RandomProcess) (t s : Time) (v : Val) :
  lookup st r = Some p ->
  getitem (update st r (mkRandomProcess (probSpace p) (fs p)
                          (time_fun_new t v (time_fun p)))) r s
  = if Qeq_bool s t then OK v else getitem st r s.
Proof.
  induction st as [|q older IH]; simpl.
  - discriminate.
  - destruct (Nat.eqb r (length older)) eqn:Hr; simpl.
    + intro H. injection H as <-. rewrite Hr. reflexivity.
    + intro H. rewrite length_update, Hr. exact (IH H).
Qed.

(** What [__setitem__] does with a scalar or a random variable. *)
Lemma setitem_valid
    (st : Store) (self : Ref) (p : RandomProcess) (t : Time) (value : Val) :
  lookup st self = Some p ->
  is_RV value || is_scalar value = true ->
  setitem st self t value
  = OK (update st self (mkRandomProcess (probSpace p) (fs p)
                          (time_fun_new t value (time_fun p)))).
Proof.
  intros Hp Hv. unfold setitem. rewrite Hv, Hp. reflexivity.
Qed.

(** C1, as amended: [process[t] = value] with a scalar or a random
    variable returns nothing and rebinds the function of the process
    itself.  No process is created; the same process now yields [value]
    at the times equal to [t] and what it yielded before at the others;
    its new function is a closure over the old one, its other attributes
    and all the other objects are as they were. *)
Theorem setitem_overrides_in_place
    (st : Store) (self : Ref) (p : RandomProcess) (t : Time) (value : Val) :
  lookup st self = Some p ->
  is_RV value || is_scalar value = true ->
  exists st',
    setitem st self t value = OK st' /\
    length st' = length st /\
    (forall s, getitem st' self s
               = if Qeq_bool s t then OK value else getitem st self s) /\
    lookup st' self
    = Some (mkRandomProcess (probSpace p) (fs p)
              (time_fun_new t value (time_fun p))) /\
    (forall r, r <> self -> lookup st' r = lookup st r).
Proof.
  intros Hp Hv. rewrite (setitem_valid st self p t value Hp Hv).
  eexists. split; [reflexivity|]. repeat split.
  - apply length_update.
  - intro s. apply getitem_update_override. exact Hp.
  - apply (lookup_update_same _ _ p). exact Hp.
  - intros r Hr. apply lookup_update_other. exact Hr.
Qed.

(** Any other value is refused. *)
Lemma setitem_invalid (st : Store) (self : Ref) (t : Time) (value : Val) :
  is_RV value || is_scalar value = false ->
  setitem st self t value = Raise InvalidOverrideError.
Proof. intro Hv. unfold setitem. rewrite Hv. reflexivity. Qed.

Lemma Qeq_bool_refl (a : Q) : Qeq_bool a a = true.
Proof. apply Qeq_bool_iff. reflexivity. Qed.

(** C2: after [process[t1] = v1] and then [process[t2] = v2], the process
    yields [v1] at [t1] and [v2] at [t2] when the two times differ, and
    [v2] when they are equal. *)
Theorem setitem_twice
    (st : Store) (self : Ref) (p : RandomProcess)
    (t1 t2 : Time) (v1 v2 : Val) :
  lookup st self = Some p ->
  is_RV v1 || is_scalar v1 = true ->
  is_RV v2 || is_scalar v2 = true ->
  exists st1 st2,
    setitem st self t1 v1 = OK st1 /\
    setitem st1 self t2 v2 = OK st2 /\
    (~ t1 == t2 ->
     getitem st2 self t1 = OK v1 /\ getitem st2 self t2 = OK v2) /\
    (t1 == t2 ->
     getitem st2 self t1 = OK v2 /\ getitem st2 self t2 = OK v2).
Proof.
  intros Hp H1 H2.
  pose (p1 := mkRandomProcess (probSpace p) (fs p)
                (time_fun_new t1 v1 (time_fun p))).
  pose (st1 := update st self p1).
  assert (Hp1 : lookup st1 self = Some p1)
    by (apply (lookup_update_same st self p); exact Hp).
  assert (Hg1 : forall s, getitem st1 self s
                          = if Qeq_bool s t1 then OK v1 else getitem st self s)
    by (intro s; apply getitem_update_override; exact Hp).
  pose (st2 := update st1 self
                 (mkRandomProcess (probSpace p1) (fs p1)
                    (time_fun_new t2 v2 (time_fun p1)))).
  assert (Hg2 : forall s, getitem st2 self s
                          = if Qeq_bool s t2 then OK v2 else getitem st1 self s)
    by (intro s; apply getitem_update_override; exact Hp1).
  exists st1, st2.
  split; [exact (setitem_valid st self p t1 v1 Hp H1)|].
  split; [exact (setitem_valid st1 self p1 t2 v2 Hp1 H2)|].
  repeat split; try assumption.
  - rewrite Hg2, Hg1.
    destruct (Qeq_bool t1 t2) eqn:Hb.
    + apply Qeq_bool_iff in Hb. contradiction.
    + rewrite Qeq_bool_refl. reflexivity.
  - rewrite Hg2, Qeq_bool_refl. reflexivity.
  - rewrite Hg2. apply Qeq_bool_iff in H. rewrite H. reflexivity.
  - rewrite Hg2, Qeq_bool_refl. reflexivity.
Qed.

(** C3: for two processes [X] and [Y] of the store, [X + Y] is a new
    process when [check_same] accepts their spaces, and the call raises
    [IncompatibleSpaceError] when it does not.  The new process yields at
    every time the sum of what [X] and [Y] yield there: [X] is evaluated
    first, then [Y], then [+]; on two scalars this is their sum.  [X] and
    [Y] are as they were. *)
Theorem add_pointwise
    (st : Store) (X Y : Ref) (pX pY : RandomProcess) :
  lookup st X = Some pX ->
  lookup st Y = Some pY ->
  (check_same (probSpace pX) (probSpace pY) = true ->
   exists Z st',
     add st X (Proc Y) = OK (Z, st') /\
     (forall t, getitem st' X t = getitem st X t) /\
     (forall t, getitem st' Y t = getitem st Y t) /\
     (forall t, getitem st' Z t
                = (x <- getitem st' X t ;;
                   y <- getitem st' Y t ;; py_add x y)) /\
     (forall t a b,
         getitem st' X t = OK (VScalar a) ->
         getitem st' Y t = OK (VScalar b) ->
         getitem st' Z t = OK (VScalar (a + b)))) /\
  (check_same (probSpace pX) (probSpace pY) = false ->
   add st X (Proc Y) = Raise IncompatibleSpaceError).
Proof.
  intros HX HY. unfold add, op_fun, check_same_probSpace, probSpace_of.
  rewrite HX, HY. simpl. split; intro Hc; rewrite Hc; simpl.
  - pose proof (lookup_lt _ _ _ HX) as HltX.
    pose proof (lookup_lt _ _ _ HY) as HltY.
    unfold new. eexists _, _. split; [reflexivity|].
    assert (HgX : forall t, getitem (mkRandomProcess (probSpace pX) (fs pX)
                               (op_time_fun2 py_add X Y) :: st) X t
                            = getitem st X t)
      by (intro t; apply getitem_new_old; exact HltX).
    assert (HgY : forall t, getitem (mkRandomProcess (probSpace pX) (fs pX)
                               (op_time_fun2 py_add X Y) :: st) Y t
                            = getitem st Y t)
      by (intro t; apply getitem_new_old; exact HltY).
    assert (HgZ : forall t,
               getitem (mkRandomProcess (probSpace pX) (fs pX)
                          (op_time_fun2 py_add X Y) :: st) (length st) t
               = (x <- getitem st X t ;; y <- getitem st Y t ;; py_add x y))
      by (intro t; rewrite getitem_new; reflexivity).
    repeat split.
    + exact HgX.
    + exact HgY.
    + intro t. rewrite HgZ, HgX, HgY. reflexivity.
    + intros t a b Ha Hb. rewrite HgZ. rewrite HgX in Ha. rewrite HgY in Hb.
      rewrite Ha, Hb. reflexivity.
  - reflexivity.
Qed.

(** The outcome of the closure [f] of [draw], by what the process yields
    at [t]: the generator is first reset to the seed of the closure. *)
Lemma f_cases (st : Store) (c : Path) (t : Time) (g0 : Rng) :
  f st c t g0 =
  let g := np_seed (seed c) in
  match getitem st (path_self c) t with
  | Raise e => (Raise e, g)
  | OK VNone => (Raise UndefinedAtTimeError, g)
  | OK (VScalar x) => (OK (VScalar x), g)
  | OK (VRV X) => rv_draw X g
  | OK (VOther o) => (Raise InvalidProcessValueError, g)
  end.
Proof.
  unfold f. destruct (getitem st (path_self c) t) as [[|x|X|o]|e];
    reflexivity.
Qed.

(** C4, as amended: a closure returned by [draw] carries the one seed
    drawn at that moment and names the process it was drawn from.  Calling
    it at a time [t] resets the generator to that seed first, so two calls
    at [t] give the same outcome, and leave the same generator state,
    whatever states the generator was in before them, provided the process
    yields the same at [t] at both calls; that is so when the process was
    not changed in between, and when it was overridden at another time
    only.  Where the process yields a random variable, the value is the
    draw that the variable makes from the seed. *)
Theorem drawn_path_deterministic_if_unchanged
    (st st' : Store) (self : Ref) (t : Time) (g g1 g2 : Rng) :
  let c := fst (draw self g) in
  seed c = fst (np_randint 1000000000 g) /\
  path_self c = self /\
  (getitem st' self t = getitem st self t ->
   f st' c t g2 = f st c t g1) /\
  (forall (p : RandomProcess) (t' : Time) (v : Val),
      lookup st self = Some p ->
      is_RV v || is_scalar v = true ->
      Qeq_bool t t' = false ->
      setitem st self t' v = OK st' ->
      f st' c t g2 = f st c t g1) /\
  (forall X, getitem st self t = OK (VRV X) ->
             f st c t g1 = rv_draw X (np_seed (seed c))).
Proof.
  unfold draw. destruct (np_randint 1000000000 g) as [sd g'].
  cbn [fst].
  assert (Hsame : getitem st' self t = getitem st self t ->
                  f st' (mkPath sd self) t g2 = f st (mkPath sd self) t g1).
  { intro H. rewrite !f_cases. cbn [path_self seed]. rewrite H.
    reflexivity. }
  split; [reflexivity|]. split; [reflexivity|]. split; [exact Hsame|].
  split.
  - intros p t' v Hp Hv Ht Hset. apply Hsame.
    rewrite (setitem_valid st self p t' v Hp Hv) in Hset.
    injection Hset as <-.
    rewrite (getitem_update_override st self p t' t v Hp), Ht.
    reflexivity.
  - intros X HX. rewrite f_cases. cbn [path_self seed]. rewrite HX.
    reflexivity.
Qed.

(** C5, as amended: the closure returned by [draw], called at [t], fails
    with [UndefinedAtTimeError] when the process function yields [None]
    at [t], fails with [InvalidProcessValueError] when it yields an object
    that is neither [None], a scalar nor a random variable, returns the
    scalar when it yields a scalar, returns a draw of the random variable,
    made from the seed of the closure, when it yields a random variable,
    and lets through any exception the process function raises.
    Indexing, [process[t]], returns what the process function yields and
    checks nothing. *)
Theorem f_checks_getitem_does_not
    (st : Store) (c : Path) (t : Time) (g0 : Rng) :
  (f st c t g0 =
   let g := np_seed (seed c) in
   match getitem st (path_self c) t with
   | Raise e => (Raise e, g)
   | OK VNone => (Raise UndefinedAtTimeError, g)
   | OK (VScalar x) => (OK (VScalar x), g)
   | OK (VRV X) => rv_draw X g
   | OK (VOther o) => (Raise InvalidProcessValueError, g)
   end) /\
  (forall (ps : ProbSpace) (fr : Freq) (h : Time -> Exc Val) (older : Store),
      getitem (mkRandomProcess ps fr (PyFun h) :: older) (length older) t
      = h t).
Proof.
  split.
  - apply f_cases.
  - intros ps fr h older. rewrite getitem_new. reflexivity.
Qed.

End ProcessFacts.

(** * Further properties *)

(** ** The Poisson counting function, continued *)

Section MorePoissonFacts.
Import PoissonProcess PrimFloat.

(** The loop returns a position at or after the one it is entered at. *)
Lemma loop_ge (x : nat -> float) (t tot : float) (fuel m n : nat) :
  loop fuel x t m tot = Some n -> (m <= n)%nat.
Proof.
  revert m tot. induction fuel as [|fuel IH]; intros m tot H; cbn [loop] in H.
  - discriminate.
  - destruct (t <? tot + x m)%float.
    + injection H as <-. lia.
    + specialize (IH _ _ H). lia.
Qed.

Lemma loop_reads_prefix (x y : nat -> float) (t : float) (fuel : nat) :
  forall m tot n,
    loop fuel x t m tot = Some n ->
    (forall k, (m <= k <= n)%nat -> y k = x k) ->
    loop fuel y t m tot = Some n.
Proof.
  induction fuel as [|fuel IH]; intros m tot n H Hxy; cbn [loop] in H.
  - discriminate.
  - cbn [loop]. destruct (t <? tot + x m)%float eqn:Hb.
    + injection H as <-. rewrite (Hxy m) by lia. rewrite Hb. reflexivity.
    + pose proof (loop_ge _ _ _ _ _ _ H) as Hge.
      rewrite (Hxy m) by lia. rewrite Hb.
      apply IH; [exact H|]. intros k Hk. apply Hxy. lia.
Qed.

(** X1: between two arrivals the count is constant.  When no inter-arrival
    time is negative and [t] is at or after the running total of the first
    [n] draws and before the running total of the first [n + 1], [fun]
    returns [n], in [n + 1] iterations; the count at the very instant of an
    arrival includes that arrival.  The running totals are the floats that
    the loop accumulates. *)
Theorem fun_between_arrivals (x : nat -> float) (t : float) (n fuel : nat) :
  (forall k, (0 <=? x k)%float = true) ->
  (cumsum x n <=? t)%float = true ->
  (t <? cumsum x (S n))%float = true ->
  (n < fuel)%nat ->
  fun_ fuel x t = Some n.
Proof.
  intros Hx Hle Hlt Hfuel. unfold fun_.
  apply (loop_break x t fuel 0 n); try lia; try assumption.
  intros k Hk.
  assert (Hk' : (cumsum x (S k) <=? t)%float = true).
  { apply float_le_trans with (2 := Hle). apply cumsum_mono; [exact Hx | lia]. }
  destruct (t <? cumsum x (S k))%float eqn:Hb; [|reflexivity].
  rewrite (float_lt_not_le _ _ Hb) in Hk'. discriminate Hk'.
Qed.

(** X2: [fun] reads the sequence of draws only up to the index it returns.
    When it returns [n] on [x], it returns [n] on every sequence that agrees
    with [x] on the indices [0..n]. *)
Theorem fun_reads_prefix (x y : nat -> float) (t : float) (fuel n : nat) :
  fun_ fuel x t = Some n ->
  (forall k, (k <= n)%nat -> y k = x k) ->
  fun_ fuel y t = Some n.
Proof.
  unfold fun_. intros H Hxy.
  apply (loop_reads_prefix x y t fuel 0 0 n H).
  intros k Hk. apply Hxy. lia.
Qed.

End MorePoissonFacts.

(** ** Random processes, continued *)

Section MoreProcessFacts.
Import RandomProcess.
Context {E : Externals}.

Lemma update_out_of_range (st : Store) (r : Ref) (p' : RandomProcess) :
  (length st <= r)%nat -> update st r p' = st.
Proof.
  induction st as [|q older IH]; simpl; intro H.
  - reflexivity.
  - destruct (Nat.eqb_spec r (length older)); [lia|].
    rewrite IH by lia. reflexivity.
Qed.

(** Rebinding an attribute of an object is not seen by the objects that
    were made before it. *)
Lemma getitem_update_lower
    (st : Store) (r r' : Ref) (p' : RandomProcess) (s : Time) :
  (r' < r)%nat -> getitem (update st r p') r' s = getitem st r' s.
Proof.
  intro Hlt. induction st as [|q older IH]; simpl.
  - reflexivity.
  - destruct (Nat.eqb_spec r (length older)) as [Hr|Hr]; simpl.
    + destruct (Nat.eqb_spec r' (length older)); [lia | reflexivity].
    + rewrite length_update.
      destruct (Nat.eqb_spec r' (length older)) as [Hr'|Hr'].
      * rewrite update_out_of_range by lia. reflexivity.
      * exact IH.
Qed.

Lemma lookup_new_old (st : Store) (q : RandomProcess) (r : Ref) :
  (r < length st)%nat -> lookup (q :: st) r = lookup st r.
Proof.
  intro H. simpl. destruct (Nat.eqb_spec r (length st)); [lia | reflexivity].
Qed.

Lemma lookup_new (st : Store) (q : RandomProcess) :
  lookup (q :: st) (length st) = Some q.
Proof. simpl. rewrite Nat.eqb_refl. reflexivity. Qed.

Lemma update_new_old (st : Store) (q p' : RandomProcess) (r : Ref) :
  (r < length st)%nat -> update (q :: st) r p' = q :: update st r p'.
Proof.
  intro H. simpl. destruct (Nat.eqb_spec r (length st)); [lia | reflexivity].
Qed.

Lemma bind_assoc (A B C : Type) (m : Exc A) (k : A -> Exc B) (h : B -> Exc C) :
  (y <- (x <- m ;; k x) ;; h y) = (x <- m ;; y <- k x ;; h y).
Proof. destruct m; reflexivity. Qed.

Lemma op_fun_scalar_eq
    (op : Val -> Val -> Exc Val) (st : Store) (X : Ref) (p : RandomProcess)
    (c : Q) :
  lookup st X = Some p ->
  op_fun op st X (Const (VScalar c))
  = OK (length st,
        mkRandomProcess (probSpace p) (fs p) (op_time_fun op X (VScalar c))
        :: st).
Proof.
  intro HX. unfold op_fun, check_same_probSpace. simpl. rewrite HX.
  reflexivity.
Qed.

(** X3: an operator with a number on the right never checks probability
    spaces.  For every operator [op], every process [X] and every number
    [c], [op_fun] returns a new process with the space and the frequency of
    [X], which yields [op(X[t], c)] at every time, with the exceptions of
    [X[t]] let through; the processes that existed are read as before. *)
Theorem op_fun_scalar
    (op : Val -> Val -> Exc Val) (st : Store) (X : Ref) (p : RandomProcess)
    (c : Q) :
  lookup st X = Some p ->
  exists st',
    op_fun op st X (Const (VScalar c)) = OK (length st, st') /\
    lookup st' (length st)
    = Some (mkRandomProcess (probSpace p) (fs p)
              (op_time_fun op X (VScalar c))) /\
    (forall t, getitem st' (length st) t
               = (x <- getitem st X t ;; op x (VScalar c))) /\
    (forall r t, (r < length st)%nat -> getitem st' r t = getitem st r t).
Proof.
  intro HX. rewrite (op_fun_scalar_eq op st X p c HX).
  eexists. split; [reflexivity|]. repeat split.
  - apply lookup_new.
  - intro t. rewrite getitem_new. reflexivity.
  - intros r t Hr. apply getitem_new_old. exact Hr.
Qed.

(** X4: an operator with a random variable on the right checks the space of
    the process against the space of the variable: the call raises
    [IncompatibleSpaceError] when [check_same] refuses them, and otherwise
    returns a new process that yields [op(X[t], Y)].  With [None] or any
    other object on the right the call raises [AttributeError]. *)
Theorem op_fun_RV
    (op : Val -> Val -> Exc Val) (st : Store) (X : Ref) (p : RandomProcess)
    (Y : RV) :
  lookup st X = Some p ->
  (check_same (probSpace p) (rv_probSpace Y) = true ->
   exists st',
     op_fun op st X (Const (VRV Y)) = OK (length st, st') /\
     (forall t, getitem st' (length st) t
                = (x <- getitem st X t ;; op x (VRV Y)))) /\
  (check_same (probSpace p) (rv_probSpace Y) = false ->
   op_fun op st X (Const (VRV Y)) = Raise IncompatibleSpaceError) /\
  op_fun op st X (Const VNone) = Raise AttributeError /\
  (forall o, op_fun op st X (Const (VOther o)) = Raise AttributeError).
Proof.
  intro HX. unfold op_fun, check_same_probSpace, probSpace_of.
  rewrite HX. simpl. repeat split.
  - intro Hc. rewrite Hc. simpl. unfold new. eexists.
    split; [reflexivity|]. intro t. rewrite getitem_new. reflexivity.
  - intro Hc. rewrite Hc. reflexivity.
Qed.

(** X5: a process made by an operator follows the later overrides of its
    operand.  After [Z = op(X, c)] and then [X[t] = v], [Z] yields
    [op(v, c)] at the times equal to [t] and what it yielded before at the
    others. *)
Theorem op_result_tracks_override
    (op : Val -> Val -> Exc Val) (st st1 : Store) (X Z : Ref)
    (p : RandomProcess) (c : Q) (t : Time) (v : Val) :
  lookup st X = Some p ->
  is_RV v || is_scalar v = true ->
  op_fun op st X (Const (VScalar c)) = OK (Z, st1) ->
  exists st2,
    setitem st1 X t v = OK st2 /\
    (forall s, getitem st2 Z s
               = if Qeq_bool s t then op v (VScalar c)
                 else getitem st1 Z s).
Proof.
  intros HX Hv Hop.
  rewrite (op_fun_scalar_eq op st X p c HX) in Hop. injection Hop as <- <-.
  pose proof (lookup_lt _ _ _ HX) as Hlt.
  assert (HX1 : lookup (mkRandomProcess (probSpace p) (fs p)
                          (op_time_fun op X (VScalar c)) :: st) X = Some p)
    by (rewrite lookup_new_old by exact Hlt; exact HX).
  rewrite (setitem_valid _ X p t v HX1 Hv).
  eexists. split; [reflexivity|]. intro s.
  rewrite update_new_old by exact Hlt.
  cbn [getitem]. rewrite length_update, Nat.eqb_refl.
  cbn [time_fun call].
  rewrite (getitem_update_override st X p t s v HX).
  destruct (Qeq_bool s t); reflexivity.
Qed.

(** X6: an override never reaches back.  After [process[t] = value], every
    process that was made before [process] yields what it yielded, at every
    time. *)
Theorem setitem_leaves_older_processes
    (st st' : Store) (self : Ref) (t : Time) (value : Val) :
  setitem st self t value = OK st' ->
  forall r s, (r < self)%nat -> getitem st' r s = getitem st r s.
Proof.
  unfold setitem. intro H.
  destruct (is_RV value || is_scalar value); [|discriminate].
  destruct (lookup st self) as [p|]; [|discriminate].
  injection H as <-. intros r s Hr. apply getitem_update_lower. exact Hr.
Qed.

(** X7: [apply] makes a new process over the same space, with the same
    frequency, which yields [function(X[t])]; applying a second function to
    the result yields the second function of the first, and an exception
    raised on the way is let through. *)
Theorem apply_composes
    (st : Store) (X : Ref) (p : RandomProcess)
    (f1 f2 : Val -> Exc Val) :
  lookup st X = Some p ->
  exists st1 st2,
    apply st X f1 = OK (length st, st1) /\
    apply st1 (length st) f2 = OK (S (length st), st2) /\
    (forall t, getitem st1 (length st) t = (x <- getitem st X t ;; f1 x)) /\
    (forall t, getitem st2 (S (length st)) t
               = (x <- getitem st X t ;; y <- f1 x ;; f2 y)) /\
    (exists q, lookup st2 (S (length st)) = Some q /\
               probSpace q = probSpace p /\ fs q = fs p).
Proof.
  intro HX.
  pose (q1 := mkRandomProcess (probSpace p) (fs p) (apply_time_fun f1 X)).
  pose (q2 := mkRandomProcess (probSpace p) (fs p)
                (apply_time_fun f2 (length st))).
  exists (q1 :: st), (q2 :: q1 :: st).
  assert (H1 : lookup (q1 :: st) (length st) = Some q1) by apply lookup_new.
  split; [unfold apply; rewrite HX; reflexivity|].
  split; [unfold apply; rewrite H1; reflexivity|].
  repeat split.
  - intro t. rewrite getitem_new. reflexivity.
  - intro t. change (S (length st)) with (length (q1 :: st)).
    rewrite getitem_new. cbn [q2 time_fun call].
    rewrite getitem_new. cbn [q1 time_fun call].
    apply bind_assoc.
  - exists q2. split; [|split; reflexivity].
    change (S (length st)) with (length (q1 :: st)). apply lookup_new.
Qed.

Lemma Qeq_bool_trans_false (s t1 t2 : Q) :
  ~ t1 == t2 -> Qeq_bool s t1 = true -> Qeq_bool s t2 = false.
Proof.
  intros Hne H1. destruct (Qeq_bool s t2) eqn:H2; [|reflexivity].
  apply Qeq_bool_iff in H1. apply Qeq_bool_iff in H2.
  exfalso. apply Hne. rewrite <- H1. exact H2.
Qed.

(** X8: overrides at different times commute.  Made in one order or in the
    other, two overrides at times that differ leave a process that yields
    the same value at every time. *)
Theorem overrides_commute
    (st : Store) (self : Ref) (p : RandomProcess)
    (t1 t2 : Time) (v1 v2 : Val) :
  lookup st self = Some p ->
  is_RV v1 || is_scalar v1 = true ->
  is_RV v2 || is_scalar v2 = true ->
  ~ t1 == t2 ->
  exists a1 a2 b1 b2,
    setitem st self t1 v1 = OK a1 /\ setitem a1 self t2 v2 = OK a2 /\
    setitem st self t2 v2 = OK b1 /\ setitem b1 self t1 v1 = OK b2 /\
    forall s, getitem a2 self s = getitem b2 self s.
Proof.
  intros Hp H1 H2 Hne.
  pose (pa := mkRandomProcess (probSpace p) (fs p)
                (time_fun_new t1 v1 (time_fun p))).
  pose (pb := mkRandomProcess (probSpace p) (fs p)
                (time_fun_new t2 v2 (time_fun p))).
  assert (Hpa : lookup (update st self pa) self = Some pa)
    by (apply (lookup_update_same st self p); exact Hp).
  assert (Hpb : lookup (update st self pb) self = Some pb)
    by (apply (lookup_update_same st self p); exact Hp).
  exists (update st self pa).
  exists (update (update st self pa) self
            (mkRandomProcess (probSpace pa) (fs pa)
               (time_fun_new t2 v2 (time_fun pa)))).
  exists (update st self pb).
  exists (update (update st self pb) self
            (mkRandomProcess (probSpace pb) (fs pb)
               (time_fun_new t1 v1 (time_fun pb)))).
  split; [exact (setitem_valid st self p t1 v1 Hp H1)|].
  split; [exact (setitem_valid _ self pa t2 v2 Hpa H2)|].
  split; [exact (setitem_valid st self p t2 v2 Hp H2)|].
  split; [exact (setitem_valid _ self pb t1 v1 Hpb H1)|].
  intro s.
  rewrite (getitem_update_override _ self pa t2 s v2 Hpa).
  rewrite (getitem_update_override _ self pb t1 s v1 Hpb).
  unfold pa, pb.
  rewrite (getitem_update_override st self p t1 s v1 Hp).
  rewrite (getitem_update_override st self p t2 s v2 Hp).
  destruct (Qeq_bool s t1) eqn:E1.
  - rewrite (Qeq_bool_trans_false s t1 t2 Hne E1). reflexivity.
  - reflexivity.
Qed.

End MoreProcessFacts.

(** ** The other operators *)

Section OperatorFacts.
Import RandomProcess Operators.
Context {E : Externals} {Ar : Arith}.

(** [-1 * P] on a process of the store: a new process that yields the
    product of what [P] yields with -1. *)
Lemma minus_one_times_spec (st : Store) (P : Ref) (p : RandomProcess) :
  lookup st P = Some p ->
  exists st',
    minus_one_times st P = OK (length st, st') /\
    length st' = S (length st) /\
    (forall t, getitem st' (length st) t
               = (x <- getitem st P t ;; py_mul x (VScalar (-1)))) /\
    (forall r t, (r < length st)%nat -> getitem st' r t = getitem st r t).
Proof.
  intro HP. unfold minus_one_times, rmul, mul.
  rewrite (op_fun_scalar_eq py_mul st P p (-1) HP).
  eexists. split; [reflexivity|]. repeat split.
  - intro t. rewrite getitem_new. reflexivity.
  - intros r t Hr. apply getitem_new_old. exact Hr.
Qed.

(** X9: [c - X], which Python computes as [-1 * (X - c)], allocates two
    processes, the difference and its product with -1; where [X] yields the
    number [x], the result yields a number equal to [c - x]. *)
Theorem rsub_scalar
    (st : Store) (X : Ref) (p : RandomProcess) (c x : Q) (t : Time) :
  lookup st X = Some p ->
  getitem st X t = OK (VScalar x) ->
  exists W st' q,
    rsub st X (Const (VScalar c)) = OK (W, st') /\
    length st' = S (S (length st)) /\
    getitem st' W t = OK (VScalar q) /\ q == c - x.
Proof.
  intros HX Hx. unfold rsub, sub.
  rewrite (op_fun_scalar_eq py_sub st X p c HX). cbn [bind fst snd].
  set (d := mkRandomProcess (probSpace p) (fs p)
              (op_time_fun py_sub X (VScalar c))).
  destruct (minus_one_times_spec (d :: st) (length st) d (lookup_new st d))
    as (st2 & Hm & Hlen2 & HW & _).
  exists (length (d :: st)), st2, ((x - c) * -1).
  split; [exact Hm|].
  split; [rewrite Hlen2; reflexivity|].
  split; [|ring].
  rewrite HW, getitem_new. cbn [d time_fun call]. rewrite Hx. reflexivity.
Qed.

(** X10: negating twice gives back the values.  [-X] is a new process that
    yields [x * -1] where [X] yields the number [x], and [-(-X)] yields a
    number equal to [x]. *)
Theorem neg_neg_scalar
    (st : Store) (X : Ref) (p : RandomProcess) (x : Q) (t : Time) :
  lookup st X = Some p ->
  getitem st X t = OK (VScalar x) ->
  exists N1 st1 N2 st2 q,
    neg st X = OK (N1, st1) /\
    getitem st1 N1 t = OK (VScalar (x * -1)) /\
    neg st1 N1 = OK (N2, st2) /\
    getitem st2 N2 t = OK (VScalar q) /\ q == x.
Proof.
  intros HX Hx. unfold neg.
  destruct (minus_one_times_spec st X p HX) as (st1 & Hm1 & Hlen1 & H1 & _).
  assert (Hq1 : exists q1, lookup st1 (length st) = Some q1).
  { unfold minus_one_times, rmul, mul, op_fun, check_same_probSpace in Hm1.
    simpl in Hm1. rewrite HX in Hm1. injection Hm1 as <-.
    eexists. apply lookup_new. }
  destruct Hq1 as [q1 Hq1].
  destruct (minus_one_times_spec st1 (length st) q1 Hq1)
    as (st2 & Hm2 & _ & H2 & _).
  exists (length st), st1, (length st1), st2, (x * -1 * -1).
  split; [exact Hm1|].
  split; [rewrite H1, Hx; reflexivity|].
  split; [exact Hm2|].
  split; [|ring].
  rewrite H2, H1, Hx. reflexivity.
Qed.

End OperatorFacts.

(** ** Simulation *)

Section SimFacts.
Import RandomProcess.
Context {E : Externals}.

Lemma draws_spec (self : Ref) (n : nat) :
  forall g,
    draws self n g
    = (map (fun i => mkPath (fst (np_randint 1000000000 (Nat.iter i after_draw g)))
                       self)
           (seq 0 n),
       Nat.iter n after_draw g).
Proof.
  induction n as [|n IH]; intro g.
  - reflexivity.
  - cbn [draws]. unfold draw.
    destruct (np_randint 1000000000 g) as [sd g1] eqn:Hg.
    rewrite IH. cbn [seq map Nat.iter fst].
    assert (Hnext : g1 = after_draw g)
      by (unfold after_draw; rewrite Hg; reflexivity).
    rewrite <- seq_shift, map_map. subst g1.
    f_equal.
    + f_equal.
      * change (Nat.iter 0 after_draw g) with g. rewrite Hg. reflexivity.
      * apply map_ext. intro i. rewrite Nat.iter_succ_r. reflexivity.
    + rewrite Nat.iter_succ_r. reflexivity.
Qed.

Lemma sim_eq
    (st : Store) (self : Ref) (p : RandomProcess) (n : nat) (g : Rng) :
  lookup st self = Some p ->
  sim st self n g
  = (OK (Results.mk Results.RandomProcessResults
           (map (fun i => mkPath (fst (np_randint 1000000000
                                         (Nat.iter i after_draw g))) self)
                (seq 0 n))
           (Some (fs p))),
     Nat.iter n after_draw g).
Proof.
  intro Hp. unfold sim. rewrite draws_spec, Hp. reflexivity.
Qed.

(** X11: [sim(n)] on a process of the store returns a
    [RandomProcessResults] of exactly [n] closures over that process, whose
    attribute [timeIndex] is the frequency [fs] of the process.  The seed of
    the [i]-th closure is the number [randint] gives after [i] earlier
    calls, and the generator is left after [n] calls. *)
Theorem sim_spec
    (st : Store) (self : Ref) (p : RandomProcess) (n : nat) (g : Rng) :
  lookup st self = Some p ->
  exists r,
    sim st self n g = (OK r, Nat.iter n after_draw g) /\
    Results.class r = Results.RandomProcessResults /\
    Results.timeIndex r = Some (fs p) /\
    Results.len r = n /\
    Results.elems r
    = map (fun i => mkPath (fst (np_randint 1000000000 (Nat.iter i after_draw g)))
                      self)
          (seq 0 n).
Proof.
  intro Hp. rewrite (sim_eq st self p n g Hp).
  eexists. split; [reflexivity|]. repeat split.
  unfold Results.len. cbn [Results.elems].
  rewrite length_map, length_seq. reflexivity.
Qed.

(** X12: the results of [sim] cannot be indexed by a time.
    [RandomProcessResults.__getitem__] subscripts every element, and the
    elements that [sim] stores are the functions returned by [draw]: for
    [n > 0] the call raises [TypeError], for [n = 0] it returns an empty
    [RVResults]. *)
Theorem sim_getitem_raises
    (st : Store) (self : Ref) (p : RandomProcess) (n : nat) (g : Rng)
    (t : Time) :
  lookup st self = Some p ->
  exists r,
    fst (sim st self n g) = OK r /\
    Paths.getitem r t
    = match n with
      | O => OK (Results.mk Results.RVResults [] None)
      | S _ => Raise TypeError
      end.
Proof.
  intro Hp. rewrite (sim_eq st self p n g Hp).
  eexists. split; [reflexivity|].
  unfold Paths.getitem. cbn [Results.elems]. destruct n; reflexivity.
Qed.

End SimFacts.

(** ** Counting outcomes *)

Section CountingFacts.
Import Results Counting.
Context {E : Externals}.

(** Induction on objects, with the members of tuples and lists. *)
Lemma Obj_nested_ind (P : Obj -> Prop) :
  (forall z, P (Int z)) ->
  (forall s, P (Str s)) ->
  (forall xs, Forall P xs -> P (Tuple xs)) ->
  (forall xs, Forall P xs -> P (PyList xs)) ->
  (forall repr, P (Unhashable repr)) ->
  forall o, P o.
Proof.
  intros HI HS HT HL HU. fix F 1. intros [z|s|xs|xs|repr].
  - apply HI.
  - apply HS.
  - apply HT. induction xs as [|x xs IH]; constructor; [apply F | exact IH].
  - apply HL. induction xs as [|x xs IH]; constructor; [apply F | exact IH].
  - apply HU.
Qed.

(** The comparison of members, pair by pair, that [obj_eqb] runs on tuples
    and lists. *)
Lemma members_eqb_eq (xs : list Obj) :
  Forall (fun x => forall b, obj_eqb x b = true <-> x = b) xs ->
  forall ys, obj_eqb (Tuple xs) (Tuple ys) = true <-> xs = ys.
Proof.
  induction 1 as [|x xs Hx _ IH]; intros [|y ys]; cbn.
  - split; reflexivity.
  - split; discriminate.
  - split; discriminate.
  - specialize (IH ys). cbn in IH.
    rewrite andb_true_iff, Hx, IH. split.
    + intros [-> ->]. reflexivity.
    + intro H. injection H as -> ->. split; reflexivity.
Qed.

(** [==] on objects is equality. *)
Lemma obj_eqb_eq (a : Obj) : forall b, obj_eqb a b = true <-> a = b.
Proof.
  induction a as [z|s|xs IH|xs IH|repr] using Obj_nested_ind;
    intros [z'|s'|ys|ys|repr']; try (cbn; split; discriminate).
  - cbn. rewrite Z.eqb_eq. split; [intros ->; reflexivity | congruence].
  - cbn. rewrite String.eqb_eq. split; [intros ->; reflexivity | congruence].
  - rewrite (members_eqb_eq xs IH ys).
    split; [intros ->; reflexivity | congruence].
  - change (obj_eqb (PyList xs) (PyList ys))
      with (obj_eqb (Tuple xs) (Tuple ys)).
    rewrite (members_eqb_eq xs IH ys).
    split; [intros ->; reflexivity | congruence].
  - cbn. rewrite String.eqb_eq. split; [intros ->; reflexivity | congruence].
Qed.

Lemma obj_eqb_refl (a : Obj) : obj_eqb a a = true.
Proof. apply obj_eqb_eq. reflexivity. Qed.

Lemma obj_eqb_neq (a b : Obj) : a <> b -> obj_eqb a b = false.
Proof.
  intro H. destruct (obj_eqb a b) eqn:Hb; [|reflexivity].
  apply obj_eqb_eq in Hb. contradiction.
Qed.

Lemma obj_eq_dec (a b : Obj) : a = b \/ a <> b.
Proof.
  destruct (obj_eqb a b) eqn:Hb.
  - left. apply obj_eqb_eq. exact Hb.
  - right. intro H. apply obj_eqb_eq in H. congruence.
Qed.

Lemma contains_false_get (V : Type) (y : Obj) (counts : Dict V) :
  contains y counts = false <-> dict_get y counts = None.
Proof.
  unfold contains. induction counts as [|[k v] counts IH]; simpl.
  - split; reflexivity.
  - destruct (obj_eqb k y); simpl.
    + split; discriminate.
    + exact IH.
Qed.

Lemma contains_true_get (V : Type) (y : Obj) (counts : Dict V) :
  contains y counts = true -> exists v, dict_get y counts = Some v.
Proof.
  intro H. destruct (dict_get y counts) as [v|] eqn:Hg.
  - exists v. reflexivity.
  - apply contains_false_get in Hg. congruence.
Qed.

Lemma dict_get_incr (k y : Obj) (counts : Dict nat) :
  dict_get y (incr k counts)
  = if obj_eqb k y then option_map S (dict_get y counts)
    else dict_get y counts.
Proof.
  induction counts as [|[k' v] counts IH]; simpl.
  - destruct (obj_eqb k y); reflexivity.
  - destruct (obj_eq_dec k' k) as [->|Hk].
    + rewrite obj_eqb_refl. simpl. destruct (obj_eqb k y); reflexivity.
    + rewrite (obj_eqb_neq _ _ Hk). simpl. rewrite IH.
      destruct (obj_eqb k' y) eqn:Hy; [|reflexivity].
      apply obj_eqb_eq in Hy. subst y.
      rewrite obj_eqb_neq by congruence. reflexivity.
Qed.

Lemma dict_get_app_new (k y : Obj) (counts : Dict nat) :
  dict_get y (counts ++ [(k, 1%nat)])
  = match dict_get y counts with
    | Some v => Some v
    | None => if obj_eqb k y then Some 1%nat else None
    end.
Proof.
  induction counts as [|[k' v] counts IH]; simpl.
  - reflexivity.
  - destruct (obj_eqb k' y); [reflexivity | exact IH].
Qed.

Lemma keys_incr (k : Obj) (counts : Dict nat) :
  map fst (incr k counts) = map fst counts.
Proof.
  induction counts as [|[k' v] counts IH]; simpl.
  - reflexivity.
  - destruct (obj_eqb k' k); simpl; [reflexivity|]. rewrite IH. reflexivity.
Qed.

Lemma contains_false_not_key (V : Type) (y : Obj) (counts : Dict V) :
  contains y counts = false -> ~ In y (map fst counts).
Proof.
  unfold contains. induction counts as [|[k v] counts IH]; simpl.
  - intros _ [].
  - intros H [Hk|Hin].
    + subst k. rewrite obj_eqb_refl in H. discriminate.
    + apply orb_false_iff in H. destruct H as [_ H]. exact (IH H Hin).
Qed.

Lemma occurrences_cons (y x : Obj) (l : list Obj) :
  occurrences y (x :: l)
  = ((if obj_eqb x y then 1 else 0) + occurrences y l)%nat.
Proof.
  unfold occurrences. simpl. destruct (obj_eqb x y); reflexivity.
Qed.

Lemma NoDup_snoc (A : Type) (l : list A) (a : A) :
  NoDup l -> ~ In a l -> NoDup (l ++ [a]).
Proof.
  induction 1 as [|b l Hb Hl IH]; simpl; intro Ha.
  - constructor; [intros [] | constructor].
  - constructor.
    + rewrite in_app_iff. intros [Hin|[Heq|[]]].
      * exact (Hb Hin).
      * apply Ha. left. symmetry. exact Heq.
    + apply IH. intro Hin. apply Ha. right. exact Hin.
Qed.

(** What the loop of [count_var] has in [counts] when it returns. *)
Lemma count_var_from_spec (x : list Obj) :
  forall counts counts',
    count_var_from counts x = OK counts' ->
    (forall y, dict_get y counts'
               = seen (dict_get y counts) (occurrences y x)) /\
    (NoDup (map fst counts) -> NoDup (map fst counts')) /\
    counted counts' = (counted counts + length x)%nat.
Proof.
  induction x as [|val rest IH]; intros counts counts' H; simpl in H.
  - injection H as <-. repeat split.
    + intro y. unfold occurrences. simpl.
      destruct (dict_get y counts); simpl; [f_equal; lia | reflexivity].
    + trivial.
    + simpl. lia.
  - destruct (hash_ok val); [|discriminate].
    destruct (contains val counts) eqn:Hc.
    + destruct (IH _ _ H) as (Hget & Hnd & Hsum). repeat split.
      * intro y. rewrite Hget, dict_get_incr, occurrences_cons.
        destruct (contains_true_get _ _ _ Hc) as [m Hm].
        destruct (obj_eqb val y) eqn:Hy.
        -- apply obj_eqb_eq in Hy. subst y. rewrite Hm. simpl.
           f_equal. lia.
        -- destruct (dict_get y counts); reflexivity.
      * intro Hn. apply Hnd. rewrite keys_incr. exact Hn.
      * rewrite Hsum, (incr_counted _ _ Hc). simpl. lia.
    + destruct (IH _ _ H) as (Hget & Hnd & Hsum). repeat split.
      * intro y. rewrite Hget, dict_get_app_new, occurrences_cons.
        destruct (obj_eqb val y) eqn:Hy.
        -- apply obj_eqb_eq in Hy. subst y.
           apply contains_false_get in Hc. rewrite Hc. simpl.
           f_equal.
        -- destruct (dict_get y counts); reflexivity.
      * intro Hn. apply Hnd. rewrite map_app. simpl.
        apply NoDup_snoc; [exact Hn|].
        apply contains_false_not_key. exact Hc.
      * rewrite Hsum, counted_app. simpl. lia.
Qed.

Lemma count_var_from_returns (x : list Obj) :
  forallb hash_ok x = true ->
  forall counts, exists counts', count_var_from counts x = OK counts'.
Proof.
  induction x as [|val rest IH]; simpl; intros H counts.
  - exists counts. reflexivity.
  - apply andb_true_iff in H. destruct H as [Hv Hr]. rewrite Hv.
    destruct (contains val counts); apply (IH Hr).
Qed.

Lemma count_var_from_raises (x : list Obj) :
  forallb hash_ok x = false ->
  forall counts, count_var_from counts x = Raise TypeError.
Proof.
  induction x as [|val rest IH]; simpl; intros H counts.
  - discriminate.
  - destruct (hash_ok val); [|reflexivity]. simpl in H.
    destruct (contains val counts); apply (IH H).
Qed.

(** X13: [count_var] raises [TypeError] exactly when some value cannot be
    hashed.  Otherwise it returns a dict in which every value that occurs
    has one entry, whose count is the number of its occurrences, and no
    other entry; the counts add up to the number of values. *)
Theorem count_var_spec (x : list Obj) :
  (forallb hash_ok x = false -> count_var x = Raise TypeError) /\
  (forallb hash_ok x = true ->
   exists counts,
     count_var x = OK counts /\
     (forall y, dict_get y counts
                = match occurrences y x with
                  | O => None
                  | S n => Some (S n)
                  end) /\
     NoDup (map fst counts) /\
     counted counts = length x).
Proof.
  unfold count_var. split; intro H.
  - apply count_var_from_raises. exact H.
  - destruct (count_var_from_returns x H []) as [counts Hc].
    exists counts. split; [exact Hc|].
    destruct (count_var_from_spec x _ _ Hc) as (Hget & Hnd & Hsum).
    repeat split.
    + intro y. rewrite Hget. simpl. destruct (occurrences y x); reflexivity.
    + apply Hnd. constructor.
    + rewrite Hsum. reflexivity.
Qed.

(** The loop of [_get_counts] is the loop of [count_var] on the keys. *)
Lemma get_counts_from_count_var (l : list Obj) :
  forall counts,
    get_counts_from counts l = count_var_from counts (map key_of l).
Proof.
  induction l as [|x l IH]; intro counts; simpl.
  - reflexivity.
  - destruct (hash_ok (key_of x)); [|reflexivity].
    destruct (contains (key_of x) counts); apply IH.
Qed.

(** X14: [_get_counts] counts the outcomes by their keys: it returns what
    [count_var] returns on the list of the keys.  So it raises [TypeError]
    exactly when some key cannot be hashed, and otherwise the entry of a
    key is the number of outcomes that have this key. *)
Theorem get_counts_spec (self : t Obj) :
  _get_counts self = count_var (map key_of (elems self)) /\
  (forallb (fun x => hash_ok (key_of x)) (elems self) = false ->
   _get_counts self = Raise TypeError) /\
  (forall counts,
      _get_counts self = OK counts ->
      (forall y, dict_get y counts
                 = match occurrences y (map key_of (elems self)) with
                   | O => None
                   | S n => Some (S n)
                   end) /\
      NoDup (map fst counts)).
Proof.
  assert (Heq : _get_counts self = count_var (map key_of (elems self)))
    by apply get_counts_from_count_var.
  split; [exact Heq|]. split.
  - intro H. rewrite Heq. apply count_var_from_raises.
    rewrite <- H. clear. induction (elems self) as [|x l IH]; simpl.
    + reflexivity.
    + rewrite IH. reflexivity.
  - intros counts Hc. rewrite Heq in Hc.
    destruct (count_var_from_spec _ _ _ Hc) as (Hget & Hnd & _). split.
    + intro y. rewrite Hget. simpl.
      destruct (occurrences y (map key_of (elems self))); reflexivity.
    + apply Hnd. constructor.
Qed.

(** X15: outcomes that [_get_counts] takes for the same.  A list whose
    members are hashable is counted with the tuple of the same members, and
    an unhashable object that is not a list is counted with the string that
    [str] gives for it. *)
Theorem get_counts_conflates
    (cls : Class) (ti : option RandomProcess.Freq) :
  (forall xs,
      forallb is_hashable xs = true -> hash_ok (Tuple xs) = true ->
      _get_counts (mk cls [PyList xs; Tuple xs] ti)
      = OK [(Tuple xs, 2%nat)]) /\
  (forall repr,
      _get_counts (mk cls [Unhashable repr; Str (py_str (Unhashable repr))] ti)
      = OK [(Str (py_str (Unhashable repr)), 2%nat)]).
Proof.
  split.
  - intros xs Hh Hok. unfold _get_counts. cbn [elems get_counts_from].
    assert (Hk1 : key_of (PyList xs) = Tuple xs)
      by (unfold key_of; cbn [is_hashable]; rewrite Hh; reflexivity).
    assert (Hk2 : key_of (Tuple xs) = Tuple xs) by reflexivity.
    rewrite Hk1, Hk2, Hok. cbn [contains existsb app fst].
    rewrite obj_eqb_refl. cbn [orb incr]. rewrite obj_eqb_refl. reflexivity.
  - intro repr. unfold _get_counts. cbn [elems get_counts_from].
    assert (Hk1 : key_of (Unhashable repr) = Str (py_str (Unhashable repr)))
      by reflexivity.
    assert (Hk2 : key_of (Str (py_str (Unhashable repr)))
                  = Str (py_str (Unhashable repr))) by reflexivity.
    rewrite Hk1, Hk2. cbn [hash_ok contains existsb app fst].
    rewrite obj_eqb_refl. cbn [orb incr]. rewrite obj_eqb_refl. reflexivity.
Qed.

End CountingFacts.

(** ** The frequency table *)

Section TabulateFacts.
Import Results Counting.
Context {E : Externals}.

Lemma dict_get_map (V W : Type) (g : V -> W) (y : Obj) (d : Dict V) :
  dict_get y (map (fun kv => (fst kv, g (snd kv))) d)
  = option_map g (dict_get y d).
Proof.
  induction d as [|[k v] d IH]; simpl.
  - reflexivity.
  - destruct (obj_eqb k y); [reflexivity | exact IH].
Qed.

Lemma keys_map (V W : Type) (g : V -> W) (d : Dict V) :
  map fst (map (fun kv => (fst kv, g (snd kv))) d) = map fst d.
Proof.
  induction d as [|[k v] d IH]; simpl.
  - reflexivity.
  - rewrite IH. reflexivity.
Qed.

Lemma dict_get_app (V : Type) (k y : Obj) (v : V) (d : Dict V) :
  dict_get y (d ++ [(k, v)])
  = match dict_get y d with
    | Some w => Some w
    | None => if obj_eqb k y then Some v else None
    end.
Proof.
  induction d as [|[k' w] d IH]; simpl.
  - reflexivity.
  - destruct (obj_eqb k' y); [reflexivity | exact IH].
Qed.

(** The entries 0 that [Table] adds for the listed outcomes: an outcome
    that has an entry keeps it, a listed one that has none gets 0. *)
Lemma dict_get_zero_entries (y : Obj) (outs : list Obj) :
  forall table : Dict Q,
    dict_get y (fold_left
                  (fun table k => if contains k table then table
                                  else table ++ [(k, 0)])
                  outs table)
    = match dict_get y table with
      | Some v => Some v
      | None => if existsb (fun k => obj_eqb k y) outs then Some 0 else None
      end.
Proof.
  induction outs as [|k outs IH]; intro table; simpl.
  - destruct (dict_get y table); reflexivity.
  - rewrite IH. destruct (contains k table) eqn:Hc.
    + destruct (dict_get y table) as [v|] eqn:Hy; [reflexivity|].
      destruct (obj_eqb k y) eqn:Hk; [|reflexivity].
      apply obj_eqb_eq in Hk. subst y.
      apply contains_false_get in Hy. congruence.
    + rewrite dict_get_app.
      destruct (dict_get y table) as [v|]; [reflexivity|].
      destruct (obj_eqb k y); reflexivity.
Qed.

Lemma NoDup_zero_entries (outs : list Obj) :
  forall table : Dict Q,
    NoDup (map fst table) ->
    NoDup (map fst (fold_left
                      (fun table k => if contains k table then table
                                      else table ++ [(k, 0)])
                      outs table)).
Proof.
  induction outs as [|k outs IH]; intros table H; simpl.
  - exact H.
  - apply IH. destruct (contains k table) eqn:Hc; [exact H|].
    rewrite map_app. simpl. apply NoDup_snoc; [exact H|].
    apply contains_false_not_key. exact Hc.
Qed.

Lemma forallb_keys (l : list Obj) :
  forallb hash_ok (map key_of l)
  = forallb (fun x => hash_ok (key_of x)) l.
Proof.
  induction l as [|x l IH]; simpl.
  - reflexivity.
  - rewrite IH. reflexivity.
Qed.

(** C9: for a non-empty ensemble of [n] outcomes whose keys can all be
    hashed, [tabulate(outcomes, normalize=True)] returns a table with one
    entry for every key that was counted, whose value is the count of that
    key divided by [n], one entry of value [0 / n] for every listed outcome
    that was not counted, and no other entry; the values of the table sum
    to 1.  The values are the exact quotients, which the floats of the
    program round.  When some key cannot be hashed, as for a tuple that
    holds a list, no table is returned: [_get_counts] raises [TypeError]. *)
Theorem tabulate_normalize_frequencies
    (self : t Obj) (outcomes : option (list Obj)) :
  elems self <> [] ->
  (forallb (fun x => hash_ok (key_of x)) (elems self) = true ->
   exists table,
     tabulate self outcomes true = OK table /\
     (forall y,
         dict_get y table
         = match occurrences y (map key_of (elems self)) with
           | S c =>
               Some (inject_Z (Z.of_nat (S c))
                     / inject_Z (Z.of_nat (len self)))
           | O =>
               match outcomes with
               | Some outs =>
                   if existsb (fun k => obj_eqb k y) outs
                   then Some (0 / inject_Z (Z.of_nat (len self)))
                   else None
               | None => None
               end
           end) /\
     NoDup (map fst table) /\
     total table == 1) /\
  (forallb (fun x => hash_ok (key_of x)) (elems self) = false ->
   tabulate self outcomes true = Raise TypeError).
Proof.
  intro Hne. unfold tabulate, _get_counts.
  rewrite get_counts_from_count_var, <- forallb_keys.
  split; intro Hh.
  2:{ rewrite (count_var_from_raises _ Hh []). reflexivity. }
  destruct (count_var_from_returns _ Hh []) as [counts Hc].
  destruct (count_var_from_spec _ _ _ Hc) as (Hget & Hnd & Hsum).
  rewrite Hc. cbn [bind].
  assert (Hn : exists n, len self = S n).
  { unfold len. destruct (elems self) as [|x0 l]; [contradiction|].
    exists (length l). reflexivity. }
  destruct Hn as [n Hn]. unfold Table_truediv. rewrite Hn.
  eexists. split; [reflexivity|]. rewrite <- Hn. split; [|split].
  - intro y.
    rewrite (dict_get_map _ _ (fun v => v / inject_Z (Z.of_nat (len self)))).
    unfold Table.
    assert (Hcounted :
      dict_get y (map (fun kv => (fst kv, inject_Z (Z.of_nat (snd kv))))
                      counts)
      = match occurrences y (map key_of (elems self)) with
        | S c => Some (inject_Z (Z.of_nat (S c)))
        | O => None
        end).
    { rewrite (dict_get_map _ _ (fun v => inject_Z (Z.of_nat v))), Hget.
      cbn [dict_get seen].
      destruct (occurrences y (map key_of (elems self))); reflexivity. }
    destruct outcomes as [outs|].
    + rewrite dict_get_zero_entries, Hcounted.
      destruct (occurrences y (map key_of (elems self))); [|reflexivity].
      destruct (existsb (fun k => obj_eqb k y) outs); reflexivity.
    + rewrite Hcounted.
      destruct (occurrences y (map key_of (elems self))); reflexivity.
  - rewrite (keys_map _ _ (fun v => v / inject_Z (Z.of_nat (len self)))).
    unfold Table.
    assert (Hk : NoDup (map fst (map (fun kv =>
                   (fst kv, inject_Z (Z.of_nat (snd kv)))) counts))).
    { rewrite (keys_map _ _ (fun v => inject_Z (Z.of_nat v))).
      apply Hnd. constructor. }
    destruct outcomes as [outs|]; [|exact Hk].
    apply NoDup_zero_entries. exact Hk.
  - rewrite total_div, Table_total, Hsum. cbn [counted fold_right].
    rewrite Nat.add_0_l, length_map. fold (len self). rewrite Hn.
    apply Qmult_inv_r. intro H0. discriminate H0.
Qed.

End TabulateFacts.

(** ** Filtering, counting and comparing *)

Section FilterFacts.
Import Results Counting.

Lemma Qgtb_true (a b : Q) : Qgtb a b = true <-> b < a.
Proof.
  unfold Qgtb. rewrite negb_true_iff.
  split; intro H.
  - apply Qnot_le_lt. intro Hle. apply Qle_bool_iff in Hle. congruence.
  - destruct (Qle_bool a b) eqn:Hb; [|reflexivity].
    apply Qle_bool_iff in Hb. exfalso. exact (Qlt_not_le _ _ H Hb).
Qed.

Lemma Qgtb_false (a b : Q) : Qgtb a b = false <-> a <= b.
Proof.
  unfold Qgtb. rewrite negb_false_iff. apply Qle_bool_iff.
Qed.

Lemma filter_keeps (A : Type) (self : t A) (f : A -> bool) :
  class self <> RandomProcessResults ->
  filter self f = OK (mk (class self) (List.filter f (elems self)) None).
Proof.
  intro Hc. unfold filter, init.
  destruct (class self); try reflexivity. contradiction.
Qed.

Lemma filter_twice (A : Type) (f : A -> bool) (l : list A) :
  List.filter f (List.filter f l) = List.filter f l.
Proof.
  induction l as [|a l IH]; simpl.
  - reflexivity.
  - destruct (f a) eqn:Ha; simpl.
    + rewrite Ha, IH. reflexivity.
    + exact IH.
Qed.

Lemma filter_shorter (A : Type) (f : A -> bool) (l : list A) :
  (length (List.filter f l) <= length l)%nat.
Proof.
  induction l as [|a l IH]; simpl.
  - lia.
  - destruct (f a); simpl; lia.
Qed.

Lemma filter_complement (A : Type) (f : A -> bool) (l : list A) :
  (length (List.filter f l)
   + length (List.filter (fun x => negb (f x)) l))%nat = length l.
Proof.
  induction l as [|a l IH]; simpl.
  - reflexivity.
  - destruct (f a); simpl; lia.
Qed.

Lemma filter_disjoint_union (A : Type) (f g h : A -> bool) (l : list A) :
  (forall x, h x = f x || g x) ->
  (forall x, f x && g x = false) ->
  (length (List.filter f l) + length (List.filter g l))%nat
  = length (List.filter h l).
Proof.
  intros Hh Hfg. induction l as [|a l IH]; simpl.
  - reflexivity.
  - rewrite (Hh a). specialize (Hfg a).
    destruct (f a), (g a); simpl in *; try discriminate; lia.
Qed.

Lemma filter_all (A : Type) (l : list A) : List.filter (fun _ => true) l = l.
Proof.
  induction l as [|a l IH]; simpl; [reflexivity | rewrite IH; reflexivity].
Qed.

Lemma trues_map (A : Type) (b : A -> bool) (l : list A) :
  trues (map b l) = length (List.filter b l).
Proof.
  unfold trues. induction l as [|a l IH]; simpl.
  - reflexivity.
  - destruct (b a); simpl; rewrite IH; reflexivity.
Qed.

(** X16: on a [Results] or a [RVResults], [filter] returns an object of the
    same class that holds, in their order, the elements for which the
    function is true; it is not longer than the original, and filtering it
    again with the same function gives it back. *)
Theorem filter_spec (A : Type) (self : t A) (f : A -> bool) :
  class self <> RandomProcessResults ->
  exists r,
    filter self f = OK r /\
    class r = class self /\
    elems r = List.filter f (elems self) /\
    (len r <= len self)%nat /\
    (forall x, In x (elems r) <-> In x (elems self) /\ f x = true) /\
    filter r f = OK r.
Proof.
  intro Hc. rewrite (filter_keeps A self f Hc).
  eexists. split; [reflexivity|]. cbn [class elems].
  split; [reflexivity|]. split; [reflexivity|].
  split; [apply filter_shorter|]. split.
  - intro x. apply filter_In.
  - rewrite filter_keeps by exact Hc. cbn [class elems].
    rewrite filter_twice. reflexivity.
Qed.

Lemma Qle_lt_or_eq_bool (x v : Q) :
  Qle_bool x v = Qgtb v x || Qeq_bool x v.
Proof.
  destruct (Qle_bool x v) eqn:Hle.
  - apply Qle_bool_iff in Hle.
    destruct (Qgtb v x) eqn:Hgt; [reflexivity|]. simpl.
    apply Qgtb_false in Hgt. symmetry. apply Qeq_bool_iff.
    apply Qle_antisym; assumption.
  - destruct (Qgtb v x) eqn:Hgt.
    + apply Qgtb_true in Hgt. apply Qlt_le_weak in Hgt.
      apply Qle_bool_iff in Hgt. congruence.
    + simpl. destruct (Qeq_bool x v) eqn:Heq; [|reflexivity].
      apply Qeq_bool_iff in Heq.
      assert (H : x <= v) by (rewrite Heq; apply Qle_refl).
      apply Qle_bool_iff in H. congruence.
Qed.

Lemma Qlt_eq_exclusive_bool (x v : Q) : Qgtb v x && Qeq_bool x v = false.
Proof.
  destruct (Qgtb v x) eqn:Hgt; [|reflexivity]. simpl.
  destruct (Qeq_bool x v) eqn:Heq; [|reflexivity].
  apply Qgtb_true in Hgt. apply Qeq_bool_iff in Heq.
  rewrite Heq in Hgt. exfalso. exact (Qlt_irrefl _ Hgt).
Qed.

(** X17: the counts of a [Results] or a [RVResults] of numbers split its
    length.  For every number [v]: [count_eq] and [count_neq] add up to the
    length, so do [count_lt] and [count_geq], and [count_leq] and
    [count_gt]; and [count_lt] plus [count_eq] is [count_leq]. *)
Theorem counts_partition (self : t Q) (v : Q) :
  class self <> RandomProcessResults ->
  exists e ne l le g ge,
    count_eq self v = OK e /\ count_neq self v = OK ne /\
    count_lt self v = OK l /\ count_leq self v = OK le /\
    count_gt self v = OK g /\ count_geq self v = OK ge /\
    (e + ne = len self)%nat /\
    (l + ge = len self)%nat /\
    (le + g = len self)%nat /\
    (l + e = le)%nat.
Proof.
  intro Hc.
  unfold count_eq, count_neq, count_lt, count_leq, count_gt, count_geq,
    filter_eq, filter_neq, filter_lt, filter_leq, filter_gt, filter_geq.
  rewrite !filter_keeps by exact Hc. cbn [bind]. unfold len. cbn [elems].
  do 6 eexists. repeat (split; [reflexivity|]).
  repeat split.
  - apply filter_complement.
  - rewrite Nat.add_comm. apply (filter_complement Q (fun x => Qle_bool v x)).
  - apply (filter_complement Q (fun x => Qle_bool x v)).
  - apply filter_disjoint_union.
    + intro x. apply Qle_lt_or_eq_bool.
    + intro x. apply Qlt_eq_exclusive_bool.
Qed.

Lemma compare_counts (self : t Q) (b : Q -> bool) :
  class self <> RandomProcessResults ->
  exists r,
    apply self (fun x => OK (b x)) = OK r /\
    class r = class self /\
    len r = len self /\
    count self b = OK (trues (elems r)).
Proof.
  intro Hc. rewrite (apply_maps Q bool self b Hc).
  eexists. split; [reflexivity|]. cbn [class elems]. repeat split.
  - unfold len. cbn [elems]. apply length_map.
  - unfold count. rewrite filter_keeps by exact Hc. cbn [bind].
    unfold len. cbn [elems]. rewrite trues_map. reflexivity.
Qed.

(** X18: a vectorized comparison and the count of the same name agree.  On
    a [Results] or a [RVResults] of numbers, [self < v] is an object of the
    same class and the same length, made of booleans, and the number of
    [True] in it is [count_lt(v)]; the same holds for [==] and [count_eq],
    and for [>=] and [count_geq]. *)
Theorem comparisons_count (self : t Q) (v : Q) :
  class self <> RandomProcessResults ->
  (exists r, lt_ self v = OK r /\ class r = class self /\
             len r = len self /\ count_lt self v = OK (trues (elems r))) /\
  (exists r, eq_ self v = OK r /\ class r = class self /\
             len r = len self /\ count_eq self v = OK (trues (elems r))) /\
  (exists r, ge_ self v = OK r /\ class r = class self /\
             len r = len self /\ count_geq self v = OK (trues (elems r))).
Proof.
  intro Hc. repeat split.
  - exact (compare_counts self (fun x => Qgtb v x) Hc).
  - exact (compare_counts self (fun x => Qeq_bool x v) Hc).
  - exact (compare_counts self (fun x => Qle_bool v x) Hc).
Qed.

(** X19: [count()] without argument is the length on a [Results] or a
    [RVResults]; on a [RandomProcessResults], whose length is defined as
    well, it raises [TypeError]. *)
Theorem count_all_spec (A : Type) (self : t A) :
  (class self <> RandomProcessResults -> count_all self = OK (len self)) /\
  (class self = RandomProcessResults -> count_all self = Raise TypeError).
Proof.
  unfold count_all, count. split; intro Hc.
  - rewrite filter_keeps by exact Hc. cbn [bind]. unfold len. cbn [elems].
    rewrite filter_all. reflexivity.
  - unfold filter, init. rewrite Hc. reflexivity.
Qed.

End FilterFacts.

(** ** The table of _repr_html_ *)

Section DisplayFacts.
Import Results Display.
Context {E : Externals}.

Lemma length_append (a b : string) :
  String.length (a ++ b) = (String.length a + String.length b)%nat.
Proof.
  induction a as [|c a IH]; simpl; [reflexivity | rewrite IH; reflexivity].
Qed.

Lemma length_substring0 (n : nat) :
  forall s, (n <= String.length s)%nat ->
            String.length (substring 0 n s) = n.
Proof.
  induction n as [|n IH]; intros [|c s] H; simpl in *;
    try reflexivity; try lia.
  rewrite IH by lia. reflexivity.
Qed.

Lemma substring0_append (a b : string) :
  substring 0 (String.length a) (a ++ b) = a.
Proof.
  induction a as [|c a IH]; simpl.
  - destruct b; reflexivity.
  - rewrite IH. reflexivity.
Qed.

(** X20: [truncate] leaves a string of at most 100 characters as it is and
    turns a longer one into its first 100 characters followed by three
    dots, 103 characters in all; truncating twice is truncating once. *)
Theorem truncate_spec (s : string) :
  ((String.length s <= 100)%nat -> truncate s = s) /\
  ((100 < String.length s)%nat ->
   truncate s = (substring 0 100 s ++ "...")%string /\
   String.length (truncate s) = 103%nat) /\
  truncate (truncate s) = truncate s.
Proof.
  assert (Hlong : (100 < String.length s)%nat ->
                  truncate s = (substring 0 100 s ++ "...")%string /\
                  String.length (truncate s) = 103%nat).
  { intro H. unfold truncate.
    destruct (Nat.ltb_spec 100 (String.length s)); [|lia].
    split; [reflexivity|].
    rewrite length_append, length_substring0 by lia. reflexivity. }
  assert (Hshort : (String.length s <= 100)%nat -> truncate s = s).
  { intro H. unfold truncate.
    destruct (Nat.ltb_spec 100 (String.length s)); [lia | reflexivity]. }
  split; [exact Hshort|]. split; [exact Hlong|].
  destruct (le_lt_dec (String.length s) 100) as [H|H].
  - rewrite (Hshort H). exact (Hshort H).
  - destruct (Hlong H) as [Heq Hlen].
    unfold truncate at 1.
    destruct (Nat.ltb_spec 100 (String.length (truncate s))); [|lia].
    rewrite Heq at 1.
    assert (H100 : String.length (substring 0 100 s) = 100%nat)
      by (apply length_substring0; lia).
    rewrite <- H100 at 1. rewrite substring0_append. symmetry. exact Heq.
Qed.

Lemma pieces_from_short (self : t Obj) (l : list Obj) :
  forall i, (i + length l <= 8)%nat -> pieces_from self i l = rows i l.
Proof.
  induction l as [|x l IH]; intros i H; cbn [pieces_from rows].
  - reflexivity.
  - cbn [length] in H. destruct (Nat.leb_spec 8 i); [lia|].
    rewrite IH by lia. reflexivity.
Qed.

Lemma pieces_from_long (self : t Obj) (l : list Obj) :
  forall i,
    (i <= 8)%nat -> (9 <= i + length l)%nat ->
    pieces_from self i l
    = (rows i (firstn (9 - i) l)
       ++ [dots;
           row_template
             (py_str (Int (Z.of_nat (len self) - 1)))
             (truncate (str_get self (Z.of_nat (len self) - 1)))])%list.
Proof.
  induction l as [|x l IH]; intros i Hi H; cbn [length] in H.
  - lia.
  - cbn [pieces_from]. destruct (Nat.leb_spec 8 i) as [H8|H8].
    + assert (i = 8)%nat by lia. subst i. reflexivity.
    + rewrite (IH (S i)) by lia.
      replace (9 - i)%nat with (S (9 - S i)) by lia. reflexivity.
Qed.

(** X21: the rows of [_repr_html_].  Up to 8 elements, the table has one row
    for each element, in order.  From 9 elements on, it has the rows of the
    first 9 elements, then a row of dots, then the row of the last element:
    with exactly 9 elements the last one is shown twice. *)
Theorem pieces_spec (self : t Obj) :
  ((len self <= 8)%nat -> pieces self = rows 0 (elems self)) /\
  ((9 <= len self)%nat ->
   exists last,
     nth_error (elems self) (len self - 1) = Some last /\
     pieces self
     = (rows 0 (firstn 9 (elems self))
        ++ [dots; row (len self - 1) last])%list) /\
  (len self = 9%nat ->
   exists last,
     nth_error (elems self) 8 = Some last /\
     pieces self
     = (rows 0 (elems self) ++ [dots; row 8 last])%list).
Proof.
  assert (Hlong : (9 <= len self)%nat ->
            exists last,
              nth_error (elems self) (len self - 1) = Some last /\
              pieces self
              = (rows 0 (firstn 9 (elems self))
                 ++ [dots; row (len self - 1) last])%list).
  { intro H. unfold pieces.
    rewrite (pieces_from_long self (elems self) 0) by (unfold len in H; lia).
    destruct (nth_error (elems self) (len self - 1)) as [last|] eqn:Hn.
    - exists last. split; [reflexivity|].
      unfold row, str_get, get. rewrite get_from_spec.
      destruct (Z.leb_spec 0 (Z.of_nat (len self) - 1)); [|lia].
      destruct (Z.ltb_spec (Z.of_nat (len self) - 1)
                  (0 + Z.of_nat (length (elems self))));
        [|unfold len in *; lia].
      cbn [andb].
      replace (Z.to_nat (Z.of_nat (len self) - 1 - 0)) with (len self - 1)%nat
        by lia.
      rewrite Hn.
      replace (Z.of_nat (len self - 1)) with (Z.of_nat (len self) - 1)%Z
        by lia.
      reflexivity.
    - apply nth_error_None in Hn. unfold len in *. lia. }
  split; [|split].
  - intro H. unfold pieces. apply pieces_from_short. unfold len in H. lia.
  - exact Hlong.
  - intro H9. destruct Hlong as (last & Hn & Hp); [lia|].
    exists last. rewrite H9 in Hn, Hp. simpl in Hn.
    split; [exact Hn|]. rewrite Hp.
    rewrite firstn_all2 by (unfold len in H9; lia). reflexivity.
Qed.

End DisplayFacts.

(** ** Sample paths and the global generator *)

Section PathFacts.
Import RandomProcess.
Context {E : Externals}.

(** X22: calling a sample path overwrites the global generator.  Unless the
    process yields a random variable at [t], the call leaves the generator
    in the state that [np.random.seed(seed)] sets, whatever its state was
    before; the seed that the next [draw] takes is then the one [randint]
    gives from that state. *)
Theorem f_resets_generator
    (st : Store) (c : Path) (t : Time) (g0 : Rng) (self' : Ref) :
  (forall X, getitem st (path_self c) t <> OK (VRV X)) ->
  snd (f st c t g0) = np_seed (seed c) /\
  seed (fst (draw self' (snd (f st c t g0))))
  = fst (np_randint 1000000000 (np_seed (seed c))).
Proof.
  intro Hrv.
  assert (Hs : snd (f st c t g0) = np_seed (seed c)).
  { rewrite f_cases. cbv zeta.
    destruct (getitem st (path_self c) t) as [[|x|X|o]|e]; try reflexivity.
    exfalso. exact (Hrv X eq_refl). }
  split; [exact Hs|]. rewrite Hs. unfold draw.
  destruct (np_randint 1000000000 (np_seed (seed c))); reflexivity.
Qed.

(** X23: a sample path follows the later overrides of its process.  After
    [process[t] = x] with a number [x], every path that was drawn from the
    process before returns [x] at the times equal to [t], and what it
    returned before at the others. *)
Theorem path_tracks_override
    (st st' : Store) (self : Ref) (p : RandomProcess)
    (t : Time) (x : Q) (sd : Z) :
  lookup st self = Some p ->
  setitem st self t (VScalar x) = OK st' ->
  forall s g0,
    f st' (mkPath sd self) s g0
    = if Qeq_bool s t then (OK (VScalar x), np_seed sd)
      else f st (mkPath sd self) s g0.
Proof.
  intros Hp Hset s g0.
  rewrite (setitem_valid st self p t (VScalar x) Hp eq_refl) in Hset.
  injection Hset as <-.
  rewrite !f_cases. cbn [path_self seed].
  rewrite (getitem_update_override st self p t s (VScalar x) Hp).
  destruct (Qeq_bool s t); reflexivity.
Qed.

End PathFacts.

(** * The properties on sample inputs *)

#[local] Existing Instance toy.

(** ** The Poisson counting function *)

Section PoissonSamples.
Import PoissonProcess PrimFloat.

(** With the inter-arrival times 1, 2^-60, 2^-60, ... the running total
    is 1 after the first draw and stays there: adding 2^-60 to 1 gives 1.
    So at [t = 1] the loop never reaches [break]. *)
Lemma stalled_loop (fuel : nat) :
  forall n, loop fuel stalled 1 (S n) 1 = None.
Proof.
  induction fuel as [|fuel IH]; intro n; [reflexivity|].
  cbn [loop stalled].
  change (1 + 0x1p-60)%float with 1%float.
  change (1 <? 1)%float with false.
  apply IH.
Qed.

Lemma stalled_never_returns (fuel : nat) : fun_ fuel stalled 1 = None.
Proof.
  destruct fuel as [|fuel]; [reflexivity|].
  unfold fun_. cbn [loop stalled].
  change (0 + 1)%float with 1%float.
  change (1 <? 1)%float with false.
  apply stalled_loop.
Qed.

Lemma stalled_pos (k : nat) : (0 <? stalled k)%float = true.
Proof. destruct k; reflexivity. Qed.

Lemma absorbed_pos (k : nat) : (0 <? absorbed k)%float = true.
Proof. destruct k as [|[|k]]; reflexivity. Qed.

(** C6 does not hold for every time and every positive sequence.
    - With inter-arrival times all equal to 1 and [t = -1], [fun] returns
      0 while no [n] has the running total of its first [n] times at most
      [t].
    - With the times 1, 2^-60, 2^-60, ... and [t = 1], [fun] does not
      return.
    - With the times 1, 2^-53, 1, ... and [t = 1], [fun] returns 2, while
      the sum of the first two times, 1 + 2^-53, is above [t]: the loop
      compares the rounded running total, which is 1 after two draws. *)
Lemma fun_counts_arrivals_counterexample :
  ((forall k, (0 <? ones k)%float = true) /\
   (forall fuel, fun_ (S fuel) ones (-1) = Some 0%nat) /\
   (forall n, (cumsum ones n <=? -1)%float = false)) /\
  ((forall k, (0 <? stalled k)%float = true) /\
   (forall fuel, fun_ fuel stalled 1 = None)) /\
  ((forall k, (0 <? absorbed k)%float = true) /\
   fun_ 3 absorbed 1 = Some 2%nat /\
   ~ (exact_cumsum absorbed 2 <= exact 1)%Q).
Proof.
  split; [|split].
  - split; [intro k; reflexivity|].
    split; [intro fuel; reflexivity|].
    intro n. apply float_lt_not_le.
    apply float_lt_le_trans with (b := 0%float); [reflexivity|].
    apply cumsum_nonneg. intro k. reflexivity.
  - split; [exact stalled_pos | exact stalled_never_returns].
  - split; [exact absorbed_pos|].
    split; [reflexivity|].
    vm_compute. intro H. apply H. reflexivity.
Qed.

Lemma fun_counts_arrivals_witness :
  (forall k, (0 <? ones k)%float = true) /\
  (0 <=? 2)%float = true /\
  (2 <? cumsum ones 3)%float = true /\
  exists n,
    fun_ 3 ones 2 = Some n /\
    (cumsum ones n <=? 2)%float = true /\
    (forall m, (cumsum ones m <=? 2)%float = true -> (m <= n)%nat) /\
    ((2 =? 0)%float = true -> n = 0%nat) /\
    (forall t' fuel' n',
        (2 <=? t')%float = true -> fun_ fuel' ones t' = Some n' ->
        (n <= n')%nat).
Proof.
  split; [intro k; reflexivity|].
  split; [reflexivity|].
  split; [reflexivity|].
  apply (fun_counts_arrivals ones 2 2);
    [intro k; reflexivity | reflexivity | reflexivity].
Defined.

(** C7 does not hold for every positive sequence: with the times 1, 2^-60,
    2^-60, ..., whose sum grows without bound, and [t = 1], no number of
    iterations reaches [break]. *)
Lemma fun_terminates_counterexample :
  (forall k, (0 <? stalled k)%float = true) /\
  (forall fuel, fun_ fuel stalled 1 = None).
Proof. split; [exact stalled_pos | exact stalled_never_returns]. Qed.

Lemma fun_terminates_iff_arrival_after_witness :
  exists n, (n <= 2)%nat /\ fun_ 3 ones 2 = Some n.
Proof.
  apply (proj2 (fun_terminates_iff_arrival_after ones 2) 2%nat).
  reflexivity.
Defined.

End PoissonSamples.

(** ** The results container *)

(** On the ensemble 1, 2, 1 with the outcome 3 listed, the table holds 2/3,
    1/3 and 0/3.  An ensemble whose one outcome is the tuple [(1, [2])] gets
    no table, although the list [[1, [2]]] is counted, under its string. *)
Lemma tabulate_normalize_frequencies_witness :
  (let self := Results.mk Results.Results [Int 1; Int 2; Int 1] None in
   exists table,
     Results.tabulate self (Some [Int 3]) true = OK table /\
     Counting.dict_get (Int 1) table = Some (2 / 3) /\
     Counting.dict_get (Int 2) table = Some (1 / 3) /\
     Counting.dict_get (Int 3) table = Some (0 / 3) /\
     Counting.dict_get (Int 4) table = None /\
     Results.total table == 1) /\
  Results.tabulate
    (Results.mk Results.Results [Tuple [Int 1; PyList [Int 2]]] None)
    None true
  = Raise TypeError /\
  (exists table,
      Results.tabulate
        (Results.mk Results.Results [PyList [Int 1; PyList [Int 2]]] None)
        None true
      = OK table /\ Results.total table == 1).
Proof.
  split; [|split].
  - intro self.
    destruct (proj1 (tabulate_normalize_frequencies self (Some [Int 3])
                       ltac:(discriminate)) eq_refl)
      as (table & Htab & Hget & _ & Htot).
    exists table. split; [exact Htab|].
    split; [exact (Hget (Int 1))|]. split; [exact (Hget (Int 2))|].
    split; [exact (Hget (Int 3))|].
    split; [exact (Hget (Int 4)) | exact Htot].
  - apply (tabulate_normalize_frequencies
             (Results.mk Results.Results [Tuple [Int 1; PyList [Int 2]]] None)
             None); [discriminate | reflexivity].
  - destruct (proj1 (tabulate_normalize_frequencies
                       (Results.mk Results.Results
                          [PyList [Int 1; PyList [Int 2]]] None)
                       None ltac:(discriminate)) eq_refl)
      as (table & Htab & _ & _ & Htot).
    exists table. split; [exact Htab | exact Htot].
Defined.

Lemma get_in_and_out_of_range_witness :
  let self := Results.mk Results.Results [10%Z; 20%Z; 30%Z] None in
  Results.get self 3 = None /\ Results.get self (-1) = None /\
  exists x, nth_error (Results.elems self) (Z.to_nat 1) = Some x /\
            Results.get self 1 = Some x.
Proof.
  intro self. split; [|split].
  - apply (proj1 (get_in_and_out_of_range Z self 3)). right. simpl. lia.
  - apply (proj1 (get_in_and_out_of_range Z self (-1))). left. lia.
  - apply (proj2 (get_in_and_out_of_range Z self 1)). simpl. lia.
Defined.

(** ** Random processes *)

(** C1 does not hold: after [process[0] = 5] on a fresh process there is
    still one process, and it is that process which now yields 5 at time 0
    where it yielded [None]. *)
Lemma setitem_counterexample :
  exists st',
    RandomProcess.setitem Sample.blank 0%nat 0 (VScalar 5) = OK st' /\
    length st' = length Sample.blank /\
    RandomProcess.getitem Sample.blank 0%nat 0 = OK VNone /\
    RandomProcess.getitem st' 0%nat 0 = OK (VScalar 5).
Proof. eexists. repeat split. Qed.

Lemma setitem_overrides_in_place_witness :
  let p := RandomProcess.init 0%nat in
  RandomProcess.lookup Sample.blank 0%nat = Some p /\
  exists st',
    RandomProcess.setitem Sample.blank 0%nat 0 (VScalar 5) = OK st' /\
    length st' = length Sample.blank /\
    (forall s, RandomProcess.getitem st' 0%nat s
               = if Qeq_bool s 0 then OK (VScalar 5)
                 else RandomProcess.getitem Sample.blank 0%nat s) /\
    RandomProcess.lookup st' 0%nat
    = Some (RandomProcess.mkRandomProcess
              (RandomProcess.probSpace p) (RandomProcess.fs p)
              (RandomProcess.time_fun_new 0 (VScalar 5)
                 (RandomProcess.time_fun p))) /\
    (forall r, r <> 0%nat ->
               RandomProcess.lookup st' r = RandomProcess.lookup Sample.blank r).
Proof.
  intro p. split; [reflexivity|].
  apply (setitem_overrides_in_place Sample.blank 0%nat p 0 (VScalar 5));
    reflexivity.
Defined.

Lemma setitem_twice_witness :
  exists st1 st2,
    RandomProcess.setitem Sample.blank 0%nat 0 (VScalar 5) = OK st1 /\
    RandomProcess.setitem st1 0%nat 1 (VRV 7%Z) = OK st2 /\
    (~ 0 == 1 ->
     RandomProcess.getitem st2 0%nat 0 = OK (VScalar 5) /\
     RandomProcess.getitem st2 0%nat 1 = OK (VRV 7%Z)) /\
    (0 == 1 ->
     RandomProcess.getitem st2 0%nat 0 = OK (VRV 7%Z) /\
     RandomProcess.getitem st2 0%nat 1 = OK (VRV 7%Z)).
Proof.
  apply (setitem_twice Sample.blank 0%nat (RandomProcess.init (E:=toy) 0%nat)
           0 1 (VScalar 5) (VRV (RV:=@RV toy) 7%Z)); reflexivity.
Defined.

Lemma add_pointwise_witness :
  (exists Z st',
      RandomProcess.add Sample.pair 0%nat (RandomProcess.Proc 1%nat)
      = OK (Z, st') /\
      RandomProcess.getitem st' Z 3 = OK (VScalar (3 + 10))) /\
  RandomProcess.add Sample.strangers 0%nat (RandomProcess.Proc 1%nat)
  = Raise IncompatibleSpaceError.
Proof.
  split.
  - destruct (proj1 (add_pointwise Sample.pair 0%nat 1%nat _ _
                       eq_refl eq_refl) eq_refl)
      as (Z & st' & Hadd & _ & _ & _ & Hsum).
    exists Z, st'. split; [exact Hadd|].
    apply Hsum.
    + injection Hadd as _ <-. reflexivity.
    + injection Hadd as _ <-. reflexivity.
  - apply (proj2 (add_pointwise Sample.strangers 0%nat 1%nat _ _
                    eq_refl eq_refl)).
    reflexivity.
Defined.

(** C5 does not hold.  Indexing a fresh process returns [None] and raises
    nothing; and where the process yields the random variable 7, the closure
    of [draw] with seed 3 returns the draw 10, not the random variable. *)
Lemma evaluate_counterexample :
  RandomProcess.getitem Sample.blank 0%nat 0 = OK VNone /\
  RandomProcess.getitem Sample.noisy 0%nat 0 = OK (VRV 7%Z) /\
  fst (RandomProcess.f Sample.noisy (RandomProcess.mkPath 3 0%nat) 0 0%Z)
  = OK (VScalar (inject_Z 10)) /\
  fst (RandomProcess.f Sample.noisy (RandomProcess.mkPath 3 0%nat) 0 0%Z)
  <> OK (VRV 7%Z).
Proof. repeat split. discriminate. Qed.

Lemma drawn_path_deterministic_if_unchanged_witness :
  let c := fst (RandomProcess.draw 0%nat 41%Z) in
  RandomProcess.f Sample.noisy c 0 99%Z = RandomProcess.f Sample.noisy c 0 0%Z /\
  (forall st',
      RandomProcess.setitem Sample.noisy 0%nat 1 (VScalar 5) = OK st' ->
      RandomProcess.f st' c 0 99%Z = RandomProcess.f Sample.noisy c 0 0%Z) /\
  RandomProcess.f Sample.noisy c 0 0%Z
  = rv_draw 7%Z (np_seed (RandomProcess.seed c)).
Proof.
  split; [|split].
  - apply (drawn_path_deterministic_if_unchanged
             Sample.noisy Sample.noisy 0%nat 0 41%Z 0%Z 99%Z).
    reflexivity.
  - intros st' Hset.
    destruct (drawn_path_deterministic_if_unchanged
                Sample.noisy st' 0%nat 0 41%Z 0%Z 99%Z)
      as (_ & _ & _ & Hother & _).
    apply (Hother _ 1 (VScalar 5) eq_refl eq_refl eq_refl Hset).
  - destruct (drawn_path_deterministic_if_unchanged
                Sample.noisy Sample.noisy 0%nat 0 41%Z 0%Z 99%Z)
      as (_ & _ & _ & _ & Hdraw).
    apply Hdraw. reflexivity.
Defined.

(** C4 does not hold for every two evaluations: the closure reads the
    process when it is called.  One closure, evaluated at 0, returns 1;
    after [process[0] = 5] the same closure, evaluated at 0 again, returns
    5. *)
Lemma drawn_path_deterministic_counterexample :
  let c := fst (RandomProcess.draw 0%nat 41%Z) in
  exists st1 st2,
    RandomProcess.setitem Sample.blank 0%nat 0 (VScalar 1) = OK st1 /\
    fst (RandomProcess.f st1 c 0 0%Z) = OK (VScalar 1) /\
    RandomProcess.setitem st1 0%nat 0 (VScalar 5) = OK st2 /\
    fst (RandomProcess.f st2 c 0 (snd (RandomProcess.f st1 c 0 0%Z)))
    = OK (VScalar 5) /\
    fst (RandomProcess.f st2 c 0 (snd (RandomProcess.f st1 c 0 0%Z)))
    <> fst (RandomProcess.f st1 c 0 0%Z).
Proof.
  eexists _, _. split; [reflexivity|]. split; [reflexivity|].
  split; [reflexivity|]. split; [reflexivity|]. discriminate.
Qed.

(** A process made by an operator reads its operand when it is called: an
    override of the operand, made after the operation, changes what the
    result yields. *)
Lemma op_result_follows_override :
  exists Z st st',
    RandomProcess.add Sample.pair 0%nat (RandomProcess.Const (VScalar 1))
    = OK (Z, st) /\
    RandomProcess.getitem st Z 3 = OK (VScalar (3 + 1)) /\
    RandomProcess.setitem st 0%nat 3 (VScalar 100) = OK st' /\
    RandomProcess.getitem st' Z 3 = OK (VScalar (100 + 1)).
Proof. eexists _, _, _. repeat split. Qed.

(** ** The further properties on sample inputs *)

#[local] Existing Instance Operators.toy_arith.

Section MorePoissonSamples.
Import PoissonProcess PrimFloat.

Lemma fun_between_arrivals_witness : fun_ 4 ones 2.5 = Some 2%nat.
Proof.
  apply (fun_between_arrivals ones 2.5 2 4).
  - intro k. reflexivity.
  - reflexivity.
  - reflexivity.
  - lia.
Defined.

Lemma fun_reads_prefix_witness :
  fun_ 4 (fun k => if (k <=? 2)%nat then 1%float else 0%float) 2.5
  = Some 2%nat.
Proof.
  apply (fun_reads_prefix ones
           (fun k => if (k <=? 2)%nat then 1%float else 0%float) 2.5 4 2).
  - reflexivity.
  - intros k Hk. destruct (Nat.leb_spec k 2); [reflexivity | lia].
Defined.

End MorePoissonSamples.

Lemma op_fun_scalar_witness :
  exists st',
    RandomProcess.op_fun RandomProcess.py_add Sample.pair 0%nat
      (RandomProcess.Const (VScalar 1))
    = OK (2%nat, st') /\
    RandomProcess.getitem st' 2%nat 3 = OK (VScalar (3 + 1)).
Proof.
  destruct (op_fun_scalar RandomProcess.py_add Sample.pair 0%nat
              (RandomProcess.TimeIndex RandomProcess.Inf) 1 eq_refl)
    as (st' & Hop & _ & Hget & _).
  exists st'. split; [exact Hop|]. rewrite Hget. reflexivity.
Defined.

Lemma op_fun_RV_witness :
  (exists st',
      RandomProcess.op_fun RandomProcess.py_add Sample.pair 0%nat
        (RandomProcess.Const (VRV 7%Z))
      = OK (2%nat, st')) /\
  RandomProcess.op_fun RandomProcess.py_add Sample.strangers 1%nat
    (RandomProcess.Const (VRV 7%Z))
  = Raise IncompatibleSpaceError.
Proof.
  split.
  - destruct (proj1 (op_fun_RV RandomProcess.py_add Sample.pair 0%nat
                       (RandomProcess.TimeIndex RandomProcess.Inf) 7%Z eq_refl)
                eq_refl)
      as (st' & Hop & _).
    exists st'. exact Hop.
  - apply (proj1 (proj2 (op_fun_RV RandomProcess.py_add Sample.strangers 1%nat
                           (RandomProcess.init (E:=toy) 1%nat) 7%Z eq_refl))).
    reflexivity.
Defined.

Lemma op_result_tracks_override_witness :
  exists Z st1 st2,
    RandomProcess.op_fun RandomProcess.py_add Sample.pair 0%nat
      (RandomProcess.Const (VScalar 1))
    = OK (Z, st1) /\
    RandomProcess.setitem st1 0%nat 3 (VScalar 100) = OK st2 /\
    RandomProcess.getitem st2 Z 3 = OK (VScalar (100 + 1)).
Proof.
  destruct (op_result_tracks_override RandomProcess.py_add Sample.pair _
              0%nat 2%nat (RandomProcess.TimeIndex RandomProcess.Inf) 1 3
              (VScalar 100) eq_refl eq_refl eq_refl)
    as (st2 & Hset & Hget).
  eexists 2%nat, _, st2. split; [reflexivity|]. split; [exact Hset|].
  rewrite Hget. reflexivity.
Defined.

Lemma setitem_leaves_older_processes_witness :
  exists st',
    RandomProcess.setitem Sample.pair 1%nat 3 (VScalar 100) = OK st' /\
    RandomProcess.getitem st' 0%nat 3 = OK (VScalar 3).
Proof.
  eexists. split; [reflexivity|].
  rewrite (setitem_leaves_older_processes Sample.pair _ 1%nat 3 (VScalar 100)
             eq_refl 0%nat 3); [reflexivity | lia].
Defined.

Lemma apply_composes_witness :
  exists st1 st2,
    RandomProcess.apply Sample.pair 0%nat (fun v => OK v) = OK (2%nat, st1) /\
    RandomProcess.apply st1 2%nat (fun _ => OK (VScalar 0)) = OK (3%nat, st2) /\
    RandomProcess.getitem st2 3%nat 5 = OK (VScalar 0).
Proof.
  destruct (apply_composes Sample.pair 0%nat
              (RandomProcess.TimeIndex RandomProcess.Inf)
              (fun v => OK v) (fun _ => OK (VScalar 0)) eq_refl)
    as (st1 & st2 & H1 & H2 & _ & Hget & _).
  exists st1, st2. split; [exact H1|]. split; [exact H2|].
  rewrite Hget. reflexivity.
Defined.

Lemma overrides_commute_witness :
  exists a1 a2 b1 b2,
    RandomProcess.setitem Sample.blank 0%nat 1 (VScalar 5) = OK a1 /\
    RandomProcess.setitem a1 0%nat 2 (VScalar 6) = OK a2 /\
    RandomProcess.setitem Sample.blank 0%nat 2 (VScalar 6) = OK b1 /\
    RandomProcess.setitem b1 0%nat 1 (VScalar 5) = OK b2 /\
    forall s, RandomProcess.getitem a2 0%nat s = RandomProcess.getitem b2 0%nat s.
Proof.
  apply (overrides_commute Sample.blank 0%nat (RandomProcess.init (E:=toy) 0%nat)
           1 2 (VScalar 5) (VScalar 6)); try reflexivity.
  intro H. discriminate H.
Defined.

Lemma rsub_scalar_witness :
  exists W st' q,
    Operators.rsub Sample.pair 0%nat (RandomProcess.Const (VScalar 10))
    = OK (W, st') /\
    length st' = 4%nat /\
    RandomProcess.getitem st' W 3 = OK (VScalar q) /\ q == 10 - 3.
Proof.
  apply (rsub_scalar Sample.pair 0%nat
           (RandomProcess.TimeIndex RandomProcess.Inf) 10 3 3); reflexivity.
Defined.

Lemma neg_neg_scalar_witness :
  exists N1 st1 N2 st2 q,
    Operators.neg Sample.pair 0%nat = OK (N1, st1) /\
    RandomProcess.getitem st1 N1 3 = OK (VScalar (3 * -1)) /\
    Operators.neg st1 N1 = OK (N2, st2) /\
    RandomProcess.getitem st2 N2 3 = OK (VScalar q) /\ q == 3.
Proof.
  apply (neg_neg_scalar Sample.pair 0%nat
           (RandomProcess.TimeIndex RandomProcess.Inf) 3 3); reflexivity.
Defined.

Lemma sim_spec_witness :
  exists r,
    fst (sim Sample.noisy 0%nat 2 5%Z) = OK r /\
    Results.len r = 2%nat /\
    Results.elems r
    = [RandomProcess.mkPath 5 0%nat; RandomProcess.mkPath 6 0%nat].
Proof.
  destruct (sim_spec Sample.noisy 0%nat _ 2 5%Z eq_refl)
    as (r & Hsim & _ & _ & Hlen & Helems).
  exists r. rewrite Hsim. split; [reflexivity|]. split; [exact Hlen|].
  rewrite Helems. reflexivity.
Defined.

Lemma sim_getitem_raises_witness :
  exists r,
    fst (sim Sample.noisy 0%nat 2 5%Z) = OK r /\
    Paths.getitem r 0 = Raise TypeError.
Proof.
  apply (sim_getitem_raises Sample.noisy 0%nat _ 2 5%Z 0 eq_refl).
Defined.

Lemma count_var_spec_witness :
  Counting.count_var [Int 1; PyList []] = Raise TypeError /\
  exists counts,
    Counting.count_var [Int 1; Str "a"; Int 1] = OK counts /\
    Counting.dict_get (Int 1) counts = Some 2%nat /\
    Counting.dict_get (Int 2) counts = None.
Proof.
  split.
  - apply (proj1 (count_var_spec [Int 1; PyList []])). reflexivity.
  - destruct (proj2 (count_var_spec [Int 1; Str "a"; Int 1]) eq_refl)
      as (counts & Hc & Hget & _).
    exists counts. split; [exact Hc|]. split; rewrite Hget; reflexivity.
Defined.

Lemma get_counts_spec_witness :
  let self := Results.mk Results.Results
                [PyList [Int 1]; Tuple [Int 1]; Int 1] None in
  Results._get_counts (Results.mk Results.Results [Tuple [PyList []]] None)
  = Raise TypeError /\
  forall counts,
    Results._get_counts self = OK counts ->
    Counting.dict_get (Tuple [Int 1]) counts = Some 2%nat.
Proof.
  intro self. split.
  - apply (proj1 (proj2 (get_counts_spec
                           (Results.mk Results.Results
                              [Tuple [PyList []]] None)))).
    reflexivity.
  - intros counts Hc.
    rewrite (proj1 (proj2 (proj2 (get_counts_spec self)) counts Hc)).
    reflexivity.
Defined.

Lemma get_counts_conflates_witness :
  Results._get_counts
    (Results.mk Results.RVResults [PyList [Int 1; Int 2]; Tuple [Int 1; Int 2]]
       None)
  = OK [(Tuple [Int 1; Int 2], 2%nat)].
Proof.
  apply (proj1 (get_counts_conflates Results.RVResults None)); reflexivity.
Defined.

Lemma filter_spec_witness :
  exists r,
    Results.filter (Results.mk Results.RVResults [1%Z; 5%Z; 2%Z; 7%Z] None)
      (fun x => (x <? 4)%Z)
    = OK r /\
    Results.elems r = [1%Z; 2%Z] /\
    Results.filter r (fun x => (x <? 4)%Z) = OK r.
Proof.
  destruct (filter_spec Z
              (Results.mk Results.RVResults [1%Z; 5%Z; 2%Z; 7%Z] None)
              (fun x => (x <? 4)%Z))
    as (r & Hf & _ & He & _ & _ & Hff).
  - discriminate.
  - exists r. split; [exact Hf|]. split; [rewrite He; reflexivity | exact Hff].
Defined.

Lemma counts_partition_witness :
  exists e ne l le g ge,
    let self := Results.mk Results.RVResults [1; 5; 2; 5] None in
    Counting.count_eq self 5 = OK e /\ Counting.count_neq self 5 = OK ne /\
    Counting.count_lt self 5 = OK l /\ Counting.count_leq self 5 = OK le /\
    Counting.count_gt self 5 = OK g /\ Counting.count_geq self 5 = OK ge /\
    (e + ne = 4)%nat /\ (l + ge = 4)%nat /\ (le + g = 4)%nat /\
    (l + e = le)%nat.
Proof.
  apply (counts_partition (Results.mk Results.RVResults [1; 5; 2; 5] None) 5).
  discriminate.
Defined.

Lemma comparisons_count_witness :
  exists r,
    Counting.lt_ (Results.mk Results.RVResults [1; 5; 2; 5] None) 5 = OK r /\
    Results.elems r = [true; false; true; false] /\
    Counting.count_lt (Results.mk Results.RVResults [1; 5; 2; 5] None) 5
    = OK 2%nat.
Proof.
  destruct (proj1 (comparisons_count
                     (Results.mk Results.RVResults [1; 5; 2; 5] None) 5
                     ltac:(discriminate)))
    as (r & Hlt & _ & _ & Hcount).
  exists r. split; [exact Hlt|].
  assert (He : Results.elems r = [true; false; true; false])
    by (injection Hlt as <-; reflexivity).
  split; [exact He|]. rewrite Hcount, He. reflexivity.
Defined.

Lemma count_all_spec_witness :
  Counting.count_all (Results.mk Results.Results [1%Z; 2%Z] None) = OK 2%nat /\
  Counting.count_all
    (Results.mk Results.RandomProcessResults [1%Z; 2%Z]
       (Some RandomProcess.Inf))
  = Raise TypeError.
Proof.
  split.
  - apply (proj1 (count_all_spec Z (Results.mk Results.Results [1%Z; 2%Z] None))).
    discriminate.
  - apply (proj2 (count_all_spec Z
                    (Results.mk Results.RandomProcessResults [1%Z; 2%Z]
                       (Some RandomProcess.Inf)))).
    reflexivity.
Defined.

Lemma truncate_spec_witness :
  Display.truncate "abc" = "abc"%string.
Proof.
  apply (proj1 (truncate_spec "abc")). simpl. lia.
Defined.

Lemma pieces_spec_witness :
  let self := Results.mk Results.Results
                [Int 0; Int 1; Int 2; Int 3; Int 4; Int 5; Int 6; Int 7; Int 8]
                None in
  Display.pieces self
  = (Display.rows 0 (Results.elems self)
     ++ [Display.dots; Display.row 8 (Int 8)])%list.
Proof.
  intro self.
  destruct (proj2 (proj2 (pieces_spec self)) eq_refl) as (last & Hn & Hp).
  injection Hn as <-. exact Hp.
Defined.

Lemma f_resets_generator_witness :
  snd (RandomProcess.f Sample.pair (RandomProcess.mkPath 3 0%nat) 5 99%Z)
  = np_seed 3%Z.
Proof.
  apply (f_resets_generator Sample.pair (RandomProcess.mkPath 3 0%nat) 5 99%Z
           0%nat).
  intros X H. discriminate H.
Defined.

Lemma path_tracks_override_witness :
  exists st',
    RandomProcess.setitem Sample.blank 0%nat 0 (VScalar 5) = OK st' /\
    fst (RandomProcess.f st' (RandomProcess.mkPath 3 0%nat) 0 0%Z)
    = OK (VScalar 5).
Proof.
  eexists. split; [reflexivity|].
  rewrite (path_tracks_override Sample.blank _ 0%nat
             (RandomProcess.init (E:=toy) 0%nat) 0 5 3%Z eq_refl eq_refl).
  reflexivity.
Defined.
